(** * unity-batchmode-mcp: the report summarizer of [runUnityTests]

    A shallow embedding of [src/index.ts] (the MCP tool [run_unity_tests]):
    configuration lookup, the spawned editor process, the two best-effort
    file reads and the regular-expression extraction that builds the
    summary text.

    Conventions of the model.
    - A JavaScript string is a [list ascii]: a sequence of code units.  The
      model covers code units below 256 (the Latin-1 range); [is_space],
      [is_digit] and [toLowerCase] are the ECMAScript definitions
      restricted to that range.
    - Regular expressions are kept as syntax ([regex]) and run by a
      backtracking matcher with the priorities of ECMAScript: greedy
      quantifiers try the longest run first, lazy ones the shortest, and
      the search for a match proceeds from left to right.
    - [summary += ...] is a write to the state of a small state-and-error
      monad; [try]/[catch] keeps the state written before the throw. *)

From Stdlib Require Import Ascii String.
From Stdlib Require Import List ZArith Lia Bool Arith.
From Stdlib Require Import Numbers.DecimalString.
Import ListNotations.

Set Implicit Arguments.

(** ** JavaScript strings *)

Module JS.

Definition jsstring := list ascii.

(** A literal of the source, as a code-unit sequence. *)
Definition str (s : string) : jsstring := list_ascii_of_string s.
Arguments str s%_string : simpl never.

Definition code (c : ascii) : nat := nat_of_ascii c.

Definition chr_eqb (a b : ascii) : bool := Ascii.eqb a b.

Fixpoint str_eqb (a b : jsstring) : bool :=
  match a, b with
  | [], [] => true
  | x :: a', y :: b' => chr_eqb x y && str_eqb a' b'
  | _, _ => false
  end.

(** [s.startsWith(p)], also returning what follows [p]. *)
Fixpoint strip_prefix (p s : jsstring) : option jsstring :=
  match p with
  | [] => Some s
  | x :: p' =>
      match s with
      | [] => None
      | y :: s' => if chr_eqb x y then strip_prefix p' s' else None
      end
  end.

Definition startsWith (s p : jsstring) : bool :=
  match strip_prefix p s with Some _ => true | None => false end.

(** [s.includes(needle)]. *)
Fixpoint includes (s needle : jsstring) : bool :=
  startsWith s needle ||
  match s with
  | [] => false
  | _ :: s' => includes s' needle
  end.

(** WhiteSpace and LineTerminator code units below 256: TAB, LF, VT, FF,
    CR, SP and NBSP. *)
Definition is_space (c : ascii) : bool :=
  let n := code c in
  ((9 <=? n) && (n <=? 13)) || (n =? 32) || (n =? 160).

Definition is_digit (c : ascii) : bool :=
  let n := code c in (48 <=? n) && (n <=? 57).

Fixpoint drop_while (p : ascii -> bool) (s : jsstring) : jsstring :=
  match s with
  | [] => []
  | c :: s' => if p c then drop_while p s' else s
  end.

(** [s.trim()]. *)
Definition trim (s : jsstring) : jsstring :=
  rev (drop_while is_space (rev (drop_while is_space s))).

(** Lower-casing of one code unit below 256: A-Z, and the Latin-1 capitals
    U+00C0..U+00DE without the multiplication sign U+00D7. *)
Definition lower_chr (c : ascii) : ascii :=
  let n := code c in
  if ((65 <=? n) && (n <=? 90))
     || ((192 <=? n) && (n <=? 222) && negb (n =? 215))
  then ascii_of_nat (n + 32) else c.

Definition toLowerCase (s : jsstring) : jsstring := map lower_chr s.

(** [s.slice(-n)]: the last [n] code units, all of [s] when it is shorter. *)
Definition slice_last (n : nat) (s : jsstring) : jsstring :=
  skipn (length s - n) s.

(** [s.slice(n)]. *)
Definition slice_from (n : nat) (s : jsstring) : jsstring := skipn n s.

(** [a.join(sep)]. *)
Fixpoint join (sep : jsstring) (l : list jsstring) : jsstring :=
  match l with
  | [] => []
  | [x] => x
  | x :: l' => x ++ sep ++ join sep l'
  end.

(** Template interpolation of an integer-valued number. *)
Definition show_Z (z : Z) : jsstring := str (NilZero.string_of_int (Z.to_int z)).
Definition show_nat (n : nat) : jsstring := show_Z (Z.of_nat n).

(** Truthiness of a string, and of a possibly undefined one. *)
Definition truthy (s : jsstring) : bool :=
  match s with [] => false | _ => true end.

Definition truthy_opt (o : option jsstring) : bool :=
  match o with Some s => truthy s | None => false end.

(** [a || b] on possibly undefined strings. *)
Definition or_else (a b : option jsstring) : option jsstring :=
  if truthy_opt a then a else b.

End JS.

Import JS.

(** ** Regular expressions

    The syntax covers what the patterns of the source use: literals,
    character classes, quantified classes ([+], [*], [*?], [?]), capture
    groups and concatenation.  Every quantifier of the source is applied to
    a single character class. *)

Module Regex.

Inductive regex : Type :=
| Lit (l : jsstring)                (* literal text *)
| Cls (p : ascii -> bool)           (* one code unit of a class *)
| Star (p : ascii -> bool)          (* [p]*  greedy *)
| Plus (p : ascii -> bool)          (* [p]+  greedy *)
| StarLazy (p : ascii -> bool)      (* [p]*? lazy *)
| Opt (p : ascii -> bool)           (* [p]?  greedy *)
| Grp (r : regex)                   (* ( r ) *)
| Seq (r1 r2 : regex).

(** Character classes of the source. *)
Definition any_chr : ascii -> bool := fun _ => true.            (* [\s\S] *)
Definition not_chr (c : ascii) : ascii -> bool :=               (* [^c] *)
  fun x => negb (chr_eqb x c).
Definition is_chr (c : ascii) : ascii -> bool := fun x => chr_eqb x c.

Section Matcher.

(** Result type of the continuation. *)
Variable R : Type.

(** A continuation receives the rest of the input and the captures made so
    far (in order of their closing parenthesis). *)
Definition cont := jsstring -> list jsstring -> option R.

(** Greedy star: consume as long as the class allows, then give back one
    code unit at a time. *)
Fixpoint star_greedy (p : ascii -> bool) (s : jsstring) (caps : list jsstring)
         (k : cont) : option R :=
  match s with
  | [] => k s caps
  | c :: s' =>
      if p c then
        match star_greedy p s' caps k with
        | Some r => Some r
        | None => k s caps
        end
      else k s caps
  end.

(** Lazy star: try the continuation first, consume one more code unit only
    when it fails. *)
Fixpoint star_lazy (p : ascii -> bool) (s : jsstring) (caps : list jsstring)
         (k : cont) : option R :=
  match k s caps with
  | Some r => Some r
  | None =>
      match s with
      | [] => None
      | c :: s' => if p c then star_lazy p s' caps k else None
      end
  end.

Fixpoint run (r : regex) (s : jsstring) (caps : list jsstring) (k : cont)
  : option R :=
  match r with
  | Lit l =>
      match strip_prefix l s with
      | Some s' => k s' caps
      | None => None
      end
  | Cls p =>
      match s with
      | c :: s' => if p c then k s' caps else None
      | [] => None
      end
  | Star p => star_greedy p s caps k
  | Plus p =>
      match s with
      | c :: s' => if p c then star_greedy p s' caps k else None
      | [] => None
      end
  | StarLazy p => star_lazy p s caps k
  | Opt p =>
      match s with
      | c :: s' =>
          if p c then
            match k s' caps with
            | Some r => Some r
            | None => k s caps
            end
          else k s caps
      | [] => k s caps
      end
  | Grp r1 =>
      run r1 s caps
          (fun s' caps' => k s' (caps' ++ [firstn (length s - length s') s]))
  | Seq r1 r2 =>
      run r1 s caps (fun s' caps' => run r2 s' caps' k)
  end.

End Matcher.

Arguments star_greedy {R} p s caps k.
Arguments star_lazy {R} p s caps k.
Arguments run {R} r s caps k.

(** The match array of a successful match: element 0 is the matched text,
    the others are the captures. *)
Definition match_array := list jsstring.

(** One attempt at the start of [s]: the match array and the unread rest. *)
Definition exec_at (r : regex) (s : jsstring) : option (match_array * jsstring) :=
  match run r s [] (fun s' caps => Some (s', caps)) with
  | Some (s', caps) => Some (firstn (length s - length s') s :: caps, s')
  | None => None
  end.

(** [s.match(/r/)]: the leftmost match, [None] for [null]. *)
Fixpoint js_match (r : regex) (s : jsstring) : option match_array :=
  match exec_at r s with
  | Some (m, _) => Some m
  | None =>
      match s with
      | [] => None
      | _ :: s' => js_match r s'
      end
  end.

(** The successive matches of a global pattern.  [skip] counts the code
    units of the previous match still to be stepped over; after an empty
    match the scan advances by one code unit, as [lastIndex] does. *)
Fixpoint scan_all (r : regex) (skip : nat) (s : jsstring) : list jsstring :=
  match s with
  | [] =>
      match skip, exec_at r [] with
      | O, Some (m :: _, _) => [m]
      | _, _ => []
      end
  | _ :: s' =>
      match skip with
      | S n => scan_all r n s'
      | O =>
          match exec_at r s with
          | Some (m :: _, _) => m :: scan_all r (length m - 1) s'
          | _ => scan_all r 0 s'
          end
      end
  end.

(** [s.match(/r/g)]: the matched texts in order, [null] when there is none. *)
Definition js_match_g (r : regex) (s : jsstring) : option (list jsstring) :=
  match scan_all r 0 s with
  | [] => None
  | l => Some l
  end.

(** [x || []]. *)
Definition or_empty (o : option (list jsstring)) : list jsstring :=
  match o with Some l => l | None => [] end.

(** [s.split(/r/)] for a pattern without capture groups.  [cur] is the
    piece being read, in reverse; it is empty exactly when the position
    read is the end of the previous separator, where an empty match does
    not split. *)
Fixpoint split_scan (r : regex) (skip : nat) (cur : jsstring) (s : jsstring)
  : list jsstring :=
  match s with
  | [] => [rev cur]
  | c :: s' =>
      match skip with
      | S n => split_scan r n cur s'
      | O =>
          match exec_at r s with
          | Some (m :: _, _) =>
              match m, cur with
              | [], [] => split_scan r 0 [c] s'
              | [], _ :: _ => rev cur :: split_scan r 0 [c] s'
              | _ :: m', _ => rev cur :: split_scan r (length m') [] s'
              end
          | _ => split_scan r 0 (c :: cur) s'
          end
      end
  end.

Definition js_split (r : regex) (s : jsstring) : list jsstring :=
  match s with
  | [] => match exec_at r [] with Some _ => [] | None => [[]] end
  | _ => split_scan r 0 [] s
  end.

(** [m[i]] of a match array. *)
Definition group (i : nat) (m : match_array) : jsstring := nth i m [].

End Regex.

Import Regex.

(** ** The environment of a run *)

(** A thrown [Error]; [String(e)] prefixes its message with the class name. *)
Inductive js_error : Type := Error (message : jsstring).

Definition String_of_error (e : js_error) : jsstring :=
  match e with Error m => str "Error: " ++ m end.

Inductive outcome (A : Type) : Type :=
| Returned (a : A)
| Thrown (e : js_error).
Arguments Returned {A} a.
Arguments Thrown {A} e.

(** What the spawned editor leaves behind: the two captured streams and the
    code of its [close] event, [None] for [null]. *)
Record Process : Type := {
  stdoutBuf : jsstring;
  stderrBuf : jsstring;
  closeCode : option Z
}.

(** [process.env], [process.argv], [path.resolve], [spawn] and
    [fs.readFile(_, "utf8")] after the editor has closed.

    [spawn w editor args] is what the editor process leaves behind once its
    [close] event has fired: the model covers the runs in which the process
    was started and has closed.  A process that cannot be started emits an
    [error] event, for which lines 91-104 register no listener; such a run
    never reaches line 106 and is outside the model. *)
Record World : Type := {
  env : jsstring -> option jsstring;
  argv : list jsstring;
  path_resolve : jsstring -> jsstring -> jsstring;
  spawn : jsstring -> list jsstring -> Process;
  readFile : jsstring -> outcome jsstring
}.

Inductive Platform : Type := EditMode | PlayMode.

Definition Platform_text (p : Platform) : jsstring :=
  match p with EditMode => str "EditMode" | PlayMode => str "PlayMode" end.

Record RunUnityTestsParams : Type := {
  filter : option jsstring;
  platform : option Platform
}.

(** ** The summary accumulator

    [M A] is a computation over the local variable [summary] that returns
    an [A] or throws. *)

Definition M (A : Type) : Type := jsstring -> outcome A * jsstring.

Definition ret {A} (a : A) : M A := fun summary => (Returned a, summary).

Definition bind {A B} (m : M A) (f : A -> M B) : M B :=
  fun summary =>
    match m summary with
    | (Returned a, summary') => f a summary'
    | (Thrown e, summary') => (Thrown e, summary')
    end.

Definition throw {A} (e : js_error) : M A := fun summary => (Thrown e, summary).

(** [summary += text]. *)
Definition append (text : jsstring) : M unit :=
  fun summary => (Returned tt, summary ++ text).

(** [await v] of a promise that resolved or rejected. *)
Definition await {A} (v : outcome A) : M A := fun summary => (v, summary).

(** [try { body } catch (e) { handler(e) }]. *)
Definition try_catch {A} (body : M A) (handler : js_error -> M A) : M A :=
  fun summary =>
    match body summary with
    | (Returned a, summary') => (Returned a, summary')
    | (Thrown e, summary') => handler e summary'
    end.

Declare Scope js_scope.
Delimit Scope js_scope with js.
Notation "x <- m ;; k" := (bind m (fun x => k))
  (at level 61, m at next level, right associativity) : js_scope.
Notation "m ;; k" := (bind m (fun _ => k))
  (at level 61, right associativity) : js_scope.
Open Scope js_scope.

(** [if (c) body]. *)
Definition when (c : bool) (body : M unit) : M unit :=
  if c then body else ret tt.

(** [for (const x of l) body(x)]. *)
Fixpoint for_of {A} (l : list A) (body : A -> M unit) : M unit :=
  match l with
  | [] => ret tt
  | x :: l' => body x ;; for_of l' body
  end.

(** [for (const x of l) body(x)] where the body answers [true] when it
    ends in [break]. *)
Fixpoint for_of_break {A} (l : list A) (body : A -> M bool) : M unit :=
  match l with
  | [] => ret tt
  | x :: l' => stop <- body x ;; if stop then ret tt else for_of_break l' body
  end.

(** ** Startup configuration *)

Definition dq : ascii := ascii_of_nat 34.    (* the double quote *)
Definition gt : ascii := ascii_of_nat 62.    (* > *)
Definition lf : ascii := ascii_of_nat 10.    (* \n *)
Definition cr : ascii := ascii_of_nat 13.    (* \r *)
Definition nl : jsstring := [lf].

(** [a.findIndex(p)], [None] for -1. *)
Fixpoint findIndex {A} (p : A -> bool) (l : list A) : option nat :=
  match l with
  | [] => None
  | x :: l' =>
      if p x then Some 0
      else match findIndex p l' with Some i => Some (S i) | None => None end
  end.

Definition readStartupArg (w : World) (flag : jsstring) (envVar : option jsstring)
  : option jsstring :=
  let from_env :=
    match envVar with
    | Some v => if truthy v then env w v else None
    | None => None
    end in
  if truthy_opt from_env then from_env
  else
    let positional :=
      match findIndex (fun a => str_eqb a flag) (argv w) with
      | Some idx => nth_error (argv w) (idx + 1)
      | None => None
      end in
    match positional with
    | Some v => Some v
    | None =>
        let pref := flag ++ str "=" in
        match find (fun a => startsWith a pref) (argv w) with
        | Some eq => if truthy eq then Some (slice_from (length pref) eq) else None
        | None => None
        end
    end.

Definition resolveUnityEditorPath (w : World) : option jsstring :=
  or_else (readStartupArg w (str "--unity-editor") (Some (str "UNITY_EDITOR_PATH")))
          (readStartupArg w (str "--unityEditor") (Some (str "UNITY_EDITOR_PATH"))).

Definition resolveUnityProjectPath (w : World) : option jsstring :=
  or_else (readStartupArg w (str "--project") (Some (str "UNITY_PROJECT_PATH")))
          (readStartupArg w (str "--projectPath") (Some (str "UNITY_PROJECT_PATH"))).

(** ** The patterns of the summarizer

    In the comments the double quote of a pattern is written [\x22]. *)

Notation "a +++ b" := (Seq a b) (at level 60, right associativity).

(** [/<test-run [^>]+>/] *)
Definition re_header : regex :=
  Lit (str "<test-run ") +++ Plus (not_chr gt) +++ Lit [gt].

(** [/<test-run[^>]+total=\x22(\d+)\x22[^>]+failed=\x22(\d+)\x22/] *)
Definition re_total : regex :=
  Lit (str "<test-run") +++ Plus (not_chr gt) +++
  Lit (str "total=" ++ [dq]) +++ Grp (Plus is_digit) +++ Lit [dq] +++
  Plus (not_chr gt) +++
  Lit (str "failed=" ++ [dq]) +++ Grp (Plus is_digit) +++ Lit [dq].

(** [/<test-case[^>]*result=\x22Failed\x22[^>]*>/g] *)
Definition re_failed_case : regex :=
  Lit (str "<test-case") +++ Star (not_chr gt) +++
  Lit (str "result=" ++ [dq] ++ str "Failed" ++ [dq]) +++
  Star (not_chr gt) +++ Lit [gt].

(** [/name=\x22( [^\x22]* )\x22/], spaces added inside the group. *)
Definition re_name : regex :=
  Lit (str "name=" ++ [dq]) +++ Grp (Star (not_chr dq)) +++ Lit [dq].

(** [/<failure>[\s\S]*?<\/failure>/g] *)
Definition re_failure : regex :=
  Lit (str "<failure>") +++ StarLazy any_chr +++ Lit (str "</failure>").

(** [/<message><!\[CDATA\[([\s\S]*?)\]\]><\/message>/] *)
Definition re_message : regex :=
  Lit (str "<message><![CDATA[") +++ Grp (StarLazy any_chr) +++
  Lit (str "]]></message>").

(** [/<stack-trace><!\[CDATA\[([\s\S]*?)\]\]><\/stack-trace>/] *)
Definition re_stack : regex :=
  Lit (str "<stack-trace><![CDATA[") +++ Grp (StarLazy any_chr) +++
  Lit (str "]]></stack-trace>").

(** [/\r?\n/] *)
Definition re_newline : regex := Opt (is_chr cr) +++ Lit [lf].

Definition generic_failure : jsstring := str "One or more child tests had errors".

(** ** The stages of [runUnityTests] *)

(** Lines 110-111. *)
Definition headerStage (xml : jsstring) : M unit :=
  let header := js_match re_header xml in
  match header with
  | Some h => append (group 0 h ++ nl)
  | None => ret tt
  end.

(** Lines 113-117. *)
Definition totalsStage (xml : jsstring) : M unit :=
  let totalMatch := js_match re_total xml in
  match totalMatch with
  | Some t =>
      let total := group 1 t in
      let failed := group 2 t in
      append (str "Total: " ++ total ++ str ", Failed: " ++ failed ++ nl)
  | None => ret tt
  end.

(** Lines 119-126. *)
Definition failedCasesStage (xml : jsstring) : M unit :=
  let failedCases := or_empty (js_match_g re_failed_case xml) in
  when (0 <? length failedCases)
    (append (str "Failed cases (" ++ show_nat (length failedCases) ++ str "):" ++ nl) ;;
     for_of failedCases (fun line =>
       let name := js_match re_name line in
       match name with
       | Some n => append (str "  - " ++ group 1 n ++ nl)
       | None => ret tt
       end)).

(** Lines 129-138. *)
Definition failureDetailStage (xml : jsstring) : M unit :=
  let failures := or_empty (js_match_g re_failure xml) in
  for_of_break failures (fun f =>
    let msg := js_match re_message f in
    let stack := js_match re_stack f in
    match msg with
    | Some m =>
        if truthy (trim (group 1 m))
           && negb (str_eqb (trim (group 1 m)) generic_failure)
        then
          append (nl ++ str "Failure message: " ++ trim (group 1 m) ++ nl) ;;
          match stack with
          | Some st => append (str "Stack: " ++ trim (group 1 st) ++ nl)
          | None => ret tt
          end ;;
          ret true
        else ret false
    | None => ret false
    end).

(** Lines 108-141. *)
Definition resultsStage (w : World) (resultsPath : jsstring) : M unit :=
  try_catch
    (xml <- await (readFile w resultsPath) ;;
     headerStage xml ;;
     totalsStage xml ;;
     failedCasesStage xml ;;
     failureDetailStage xml)
    (fun _ => append (str "No results.xml found or failed to parse." ++ nl)).

(** Lines 143-144. *)
Definition footerStage (logPath : jsstring) (exitCode : Z) : M unit :=
  append (nl ++ str "Log: " ++ logPath) ;;
  append (nl ++ str "Exit code: " ++ show_Z exitCode).

(** Line 147. *)
Definition tail (text : jsstring) (max : nat) : jsstring :=
  if max <? length text then slice_last max text else text.

(** Lines 148-153. *)
Definition tailsStage (stdoutBuf stderrBuf : jsstring) : M unit :=
  when (truthy (trim stdoutBuf))
    (append (nl ++ nl ++ str "[stdout tail]" ++ nl ++ tail stdoutBuf 1000)) ;;
  when (truthy (trim stderrBuf))
    (append (nl ++ nl ++ str "[stderr tail]" ++ nl ++ tail stderrBuf 1000)).

(** Lines 156-172. *)
Definition logGrepStage (w : World) (logPath : jsstring) (exitCode : Z) : M unit :=
  when (negb (exitCode =? 0)%Z)
    (try_catch
       (logText <- await (readFile w logPath) ;;
        let lines := js_split re_newline logText in
        let errorLines :=
          List.filter (fun line => includes (toLowerCase line) (str "error")) lines in
        if 0 <? length errorLines then
          let max := 200 in
          let tailErrors :=
            if max <? length errorLines
            then skipn (length errorLines - max) errorLines
            else errorLines in
          append (nl ++ nl ++ str "[log grep -i 'error' (" ++
                  show_nat (length tailErrors) ++ str "/" ++
                  show_nat (length errorLines) ++ str " matches)]" ++ nl) ;;
          append (join nl tailErrors)
        else
          append (nl ++ nl ++ str "[log grep -i 'error']" ++ nl ++
                  str "No 'error' lines found."))
       (fun e =>
          append (nl ++ nl ++ str "[log grep -i 'error']" ++ nl ++
                  str "Failed to read log file: " ++ String_of_error e))).

(** The object a call resolves to. *)
Record RunResult : Type := { summary : jsstring; exitCode : Z }.

(** Lines 106-174: everything after the editor has closed. *)
Definition summarize (w : World) (resultsPath logPath : jsstring) (child : Process)
  : M RunResult :=
  let exitCode := match closeCode child with Some code => code | None => 0%Z end in
  resultsStage w resultsPath ;;
  footerStage logPath exitCode ;;
  tailsStage (stdoutBuf child) (stderrBuf child) ;;
  logGrepStage w logPath exitCode ;;
  (fun summary => (Returned {| summary := summary; exitCode := exitCode |}, summary)).

(** Lines 63-80. *)
Definition editor_args (unityProjectPath resultsPath logPath : jsstring)
           (platform : Platform) (filter : option jsstring) : list jsstring :=
  [ str "--burst-force-sync-compilation";
    str "-burst-force-sync-compilation";
    str "-runTests";
    str "-batchmode";
    str "-projectPath"; unityProjectPath;
    str "-testPlatform"; Platform_text platform;
    str "-testResults"; resultsPath;
    str "-logFile"; logPath ] ++
  match filter with
  | Some f => if 0 <? length (trim f) then [str "-testFilter"; f] else []
  | None => []
  end.

(** [runUnityTests(params)]; the local [summary] starts empty at line 107.
    The array [summaryLines] of lines 82-87 is written and never read. *)
Definition runUnityTests (w : World) (params : RunUnityTestsParams)
  : outcome RunResult :=
  let unityEditorPath := resolveUnityEditorPath w in
  let unityProjectPath := resolveUnityProjectPath w in
  match (if truthy_opt unityEditorPath then unityEditorPath else None) with
  | None =>
      Thrown (Error (str "Missing Unity editor path. Provide via --unity-editor or UNITY_EDITOR_PATH."))
  | Some unityEditorPath =>
      match (if truthy_opt unityProjectPath then unityProjectPath else None) with
      | None =>
          Thrown (Error (str "Missing Unity project path. Provide via --project or UNITY_PROJECT_PATH."))
      | Some unityProjectPath =>
          let platform :=
            match platform params with Some p => p | None => EditMode end in
          let resultsPath := path_resolve w unityProjectPath (str "results.xml") in
          let logPath := path_resolve w unityProjectPath (str "batch.log") in
          let args :=
            editor_args unityProjectPath resultsPath logPath platform (filter params) in
          let child := spawn w unityEditorPath args in
          fst (summarize w resultsPath logPath child [])
      end
  end.

(** The envelope of a tool response. *)
Record ToolResponse : Type := { text : jsstring; isError : bool }.

(** Lines 184-195: the handler of the tool [run_unity_tests]; the schema
    defaults [platform] to [EditMode]. *)
Definition run_unity_tests_tool (w : World) (filter : option jsstring)
           (platform : option Platform) : outcome ToolResponse :=
  let platform := match platform with Some p => p | None => EditMode end in
  match runUnityTests w {| filter := filter; platform := Some platform |} with
  | Returned r =>
      Returned {| text := summary r; isError := negb (exitCode r =? 0)%Z |}
  | Thrown e => Thrown e
  end.

(** ** Vocabulary of the properties *)

(** The text an action appends to an empty summary. *)
Definition appended {A} (m : M A) : jsstring := snd (m []).

(** The exit code a run reports for a process. *)
Definition reported_code (child : Process) : Z :=
  match closeCode child with Some code => code | None => 0%Z end.

Definition results_notice : jsstring :=
  str "No results.xml found or failed to parse." ++ nl.

Definition grep_label : jsstring := nl ++ nl ++ str "[log grep -i 'error'".

Definition log_failure_notice (e : js_error) : jsstring :=
  grep_label ++ str "]" ++ nl ++ str "Failed to read log file: " ++ String_of_error e.

(** A text is blank when it consists of white space only. *)
Definition blank (s : jsstring) : bool := forallb is_space s.

(** The last [n] code units of a text, read off its end. *)
Definition last_chars {A} (n : nat) (s : list A) : list A := rev (firstn n (rev s)).

(** The section of one captured stream as the specification words it:
    nothing for a blank text, otherwise the label and the text, cut to its
    last 1000 code units when it is longer. *)
Definition stream_section (label text : jsstring) : jsstring :=
  if blank text then []
  else nl ++ nl ++ label ++ nl ++
       (if 1000 <? length text then last_chars 1000 text else text).

(** The lines of the log that contain [error] in any letter case. *)
Definition error_lines (logText : jsstring) : list jsstring :=
  List.filter (fun line => includes (toLowerCase line) (str "error"))
              (js_split re_newline logText).

(** The text of the summary that precedes the log-grep section. *)
Definition before_grep (w : World) (resultsPath logPath : jsstring) (child : Process)
  : jsstring :=
  appended (resultsStage w resultsPath) ++
  appended (footerStage logPath (reported_code child)) ++
  appended (tailsStage (stdoutBuf child) (stderrBuf child)).

(** The blocks the failure-detail stage iterates over, in document order. *)
Definition failure_blocks (xml : jsstring) : list jsstring :=
  or_empty (js_match_g re_failure xml).

(** The CDATA message of a failure block, trimmed. *)
Definition failure_message (f : jsstring) : option jsstring :=
  match js_match re_message f with
  | Some m => Some (trim (group 1 m))
  | None => None
  end.

(** The CDATA stack trace of a failure block, trimmed. *)
Definition failure_stack (f : jsstring) : option jsstring :=
  match js_match re_stack f with
  | Some st => Some (trim (group 1 st))
  | None => None
  end.

(** A block qualifies when its trimmed message is non-empty and is not the
    generic one. *)
Definition qualifies (f : jsstring) : bool :=
  match failure_message f with
  | Some msg => negb (str_eqb msg []) && negb (str_eqb msg generic_failure)
  | None => false
  end.

(** A block carries the generic message. *)
Definition generic_block (f : jsstring) : bool :=
  match failure_message f with
  | Some msg => str_eqb msg generic_failure
  | None => false
  end.

(** The failure detail surfaced for a block: its message, and its stack
    trace if present. *)
Definition detail_text (f : jsstring) : jsstring :=
  nl ++ str "Failure message: " ++
  match failure_message f with Some msg => msg | None => [] end ++ nl ++
  match failure_stack f with
  | Some st => str "Stack: " ++ st ++ nl
  | None => []
  end.

(** The detail of the first qualifying block, nothing when none qualifies. *)
Definition first_qualifying_detail (blocks : list jsstring) : jsstring :=
  match find qualifies blocks with
  | Some f => detail_text f
  | None => []
  end.

(** What the results stage appends for a document that was read. *)
Definition parsed_text (xml : jsstring) : jsstring :=
  appended (headerStage xml) ++ appended (totalsStage xml) ++
  appended (failedCasesStage xml) ++ appended (failureDetailStage xml).

(** What the results stage appends, by the outcome of the read. *)
Definition results_text (read : outcome jsstring) : jsstring :=
  match read with
  | Returned xml => parsed_text xml
  | Thrown _ => results_notice
  end.

(** The footer: log path and exit code. *)
Definition footer_text (logPath : jsstring) (code : Z) : jsstring :=
  nl ++ str "Log: " ++ logPath ++ nl ++ str "Exit code: " ++ show_Z code.

(** The log-grep section for the matching lines [errs] of a log that was
    read: at most the last 200 of them under a header that counts both. *)
Definition grep_found (errs : list jsstring) : jsstring :=
  let shown := last_chars 200 errs in
  grep_label ++ str " (" ++ show_nat (length shown) ++ str "/" ++
  show_nat (length errs) ++ str " matches)]" ++ nl ++ join nl shown.

Definition grep_none : jsstring :=
  grep_label ++ str "]" ++ nl ++ str "No 'error' lines found.".

(** The log-grep section, by exit code and outcome of the read. *)
Definition grep_text (code : Z) (read : outcome jsstring) : jsstring :=
  if (code =? 0)%Z then []
  else match read with
       | Returned logText =>
           match error_lines logText with
           | [] => grep_none
           | errs => grep_found errs
           end
       | Thrown e => log_failure_notice e
       end.

(** *** What a pattern can match

    [derives r s caps s' caps'] holds when [r] can read a prefix of [s],
    leaving [s'], and extend the captures from [caps] to [caps'], whatever
    the priorities.  The matcher picks one of these readings. *)
Inductive derives : regex -> jsstring -> list jsstring ->
                    jsstring -> list jsstring -> Prop :=
| d_lit l s caps :
    derives (Lit l) (l ++ s) caps s caps
| d_cls p c s caps :
    p c = true -> derives (Cls p) (c :: s) caps s caps
| d_star p u s caps :
    forallb p u = true -> derives (Star p) (u ++ s) caps s caps
| d_plus p c u s caps :
    p c = true -> forallb p u = true ->
    derives (Plus p) (c :: u ++ s) caps s caps
| d_lazy p u s caps :
    forallb p u = true -> derives (StarLazy p) (u ++ s) caps s caps
| d_opt_one p c s caps :
    p c = true -> derives (Opt p) (c :: s) caps s caps
| d_opt_none p s caps :
    derives (Opt p) s caps s caps
| d_grp r s caps s' caps' :
    derives r s caps s' caps' ->
    derives (Grp r) s caps s' (caps' ++ [firstn (length s - length s') s])
| d_seq r1 r2 s caps s1 caps1 s2 caps2 :
    derives r1 s caps s1 caps1 -> derives r2 s1 caps1 s2 caps2 ->
    derives (r1 +++ r2) s caps s2 caps2.

(** The number of places at which [needle] occurs in [s]. *)
Fixpoint count_sub (s needle : jsstring) : nat :=
  (if startsWith s needle then 1 else 0) +
  match s with
  | [] => 0
  | _ :: s' => count_sub s' needle
  end.

Definition run_tag : jsstring := str "<test-run".
Definition total_attr : jsstring := str "total=" ++ [dq].
Definition failed_attr : jsstring := str "failed=" ++ [dq].

(** A non-empty run of decimal digits. *)
Definition digits (s : jsstring) : bool :=
  negb (str_eqb s []) && forallb is_digit s.

(** A text without [>]: what can stand inside a tag. *)
Definition tag_text (s : jsstring) : bool := forallb (not_chr gt) s.

(** The line of the totals stage. *)
Definition totals_line (total failed : jsstring) : jsstring :=
  str "Total: " ++ total ++ str ", Failed: " ++ failed ++ nl.

(** The tags the failed-case stage enumerates, in document order. *)
Definition failed_case_tags (xml : jsstring) : list jsstring :=
  or_empty (js_match_g re_failed_case xml).

Definition name_eq_quote : jsstring := str "name=" ++ [dq].

(** The text before the next double quote, when there is one. *)
Fixpoint until_quote (s : jsstring) : option jsstring :=
  match s with
  | [] => None
  | c :: s' =>
      if chr_eqb c dq then Some []
      else match until_quote s' with Some v => Some (c :: v) | None => None end
  end.

(** The value [v] when the text starts with [name=], a double quote, [v]
    and a closing double quote. *)
Definition name_value_at (s : jsstring) : option jsstring :=
  match strip_prefix name_eq_quote s with
  | Some r => until_quote r
  | None => None
  end.

(** The value of the first occurrence of that pattern anywhere in a text. *)
Fixpoint first_name_value (s : jsstring) : option jsstring :=
  match name_value_at s with
  | Some v => Some v
  | None =>
      match s with
      | [] => None
      | _ :: s' => first_name_value s'
      end
  end.

(** The dash line of a tag: its first [name=...] value, nothing when the
    tag has none. *)
Definition dash_line (tag : jsstring) : jsstring :=
  match first_name_value tag with
  | Some v => str "  - " ++ v ++ nl
  | None => []
  end.

(** The names listed for a sequence of tags, in their order. *)
Definition listed_names (tags : list jsstring) : list jsstring :=
  flat_map (fun tag => match first_name_value tag with
                       | Some v => [v]
                       | None => []
                       end) tags.

Definition failed_cases_header (n : nat) : jsstring :=
  str "Failed cases (" ++ show_nat n ++ str "):" ++ nl.

(** A text of a sample document: the apostrophes of the literal stand for
    double quotes. *)
Definition quoted (s : string) : jsstring :=
  map (fun c => if chr_eqb c "'"%char then dq else c) (str s).
Arguments quoted s%_string.

(** *** Sample environments, for the instances of the properties *)

Definition enoent : js_error := Error (str "ENOENT: no such file or directory").

(** An environment configured through [process.env], with project [/p]:
    the results document and the log are what [results] and [log] say,
    every other read fails, and the editor leaves [child] behind. *)
Definition sample_world (results log : outcome jsstring) (child : Process) : World :=
  {| env := fun v =>
       if str_eqb v (str "UNITY_EDITOR_PATH") then Some (str "/u")
       else if str_eqb v (str "UNITY_PROJECT_PATH") then Some (str "/p")
       else None;
     argv := [str "node"; str "index.js"];
     path_resolve := fun a b => a ++ str "/" ++ b;
     spawn := fun _ _ => child;
     readFile := fun f =>
       if str_eqb f (str "/p/results.xml") then results
       else if str_eqb f (str "/p/batch.log") then log
       else Thrown enoent |}.

(** The same files seen from a process started with flags instead, and
    with one more readable file around. *)
Definition other_world (results log : outcome jsstring) (child : Process) : World :=
  {| env := fun _ => None;
     argv := [str "node"; str "index.js"; str "--unity-editor"; str "/u";
              str "--project=/p"];
     path_resolve := fun a b => a ++ str "/" ++ b;
     spawn := fun _ _ => child;
     readFile := fun f =>
       if str_eqb f (str "/p/results.xml") then results
       else if str_eqb f (str "/p/batch.log") then log
       else Returned (str "unrelated") |}.

Definition sample_child (out err : jsstring) (code : option Z) : Process :=
  {| stdoutBuf := out; stderrBuf := err; closeCode := code |}.

(** [n] copies of a line. *)
Definition lines_of (n : nat) (line : jsstring) : jsstring :=
  join nl (repeat line n).

(** An action is append-only when it returns and only extends the summary. *)
Definition append_only (m : M unit) : Prop :=
  forall s, m s = (Returned tt, s ++ appended m).

(** The lines of the section of one captured stream. *)
Definition section_lines (label text : jsstring) : list jsstring :=
  if blank text then []
  else [[]; label; if 1000 <? length text then last_chars 1000 text else text].

(** The summary of a run with exit code 0 whose results document could not
    be read, as the lines it is joined from. *)
Definition unread_summary_lines (logPath out err : jsstring) : list jsstring :=
  [str "No results.xml found or failed to parse."; [];
   str "Log: " ++ logPath; str "Exit code: 0"] ++
  section_lines (str "[stdout tail]") out ++
  section_lines (str "[stderr tail]") err.

Definition case_tag : jsstring := str "<test-case".
Definition result_failed : jsstring := str "result=" ++ [dq] ++ str "Failed" ++ [dq].

(** A self-contained test-case tag whose result attribute is [Failed]: the
    attribute texts [a] and [b] stand before and after that attribute. *)
Definition failed_case_tag (a b : jsstring) : jsstring :=
  case_tag ++ a ++ result_failed ++ b ++ [gt].

Fixpoint take_while (p : ascii -> bool) (s : jsstring) : jsstring :=
  match s with
  | [] => []
  | c :: s' => if p c then c :: take_while p s' else []
  end.

(** What follows [<test-case] closes the tag, and the tag has no
    [result=Failed] attribute. *)
Definition closes_unfailed (r : jsstring) : bool :=
  match drop_while (not_chr gt) r with
  | [] => false
  | _ :: _ => negb (includes (take_while (not_chr gt) r) result_failed)
  end.

(** A text between failed test-case tags: every [<test-case] in it opens a
    tag that is closed and is not marked [Failed]. *)
Fixpoint no_failed_case (g : jsstring) : bool :=
  match strip_prefix case_tag g with
  | Some r => closes_unfailed r
  | None => true
  end &&
  match g with
  | [] => true
  | _ :: g' => no_failed_case g'
  end.

(** A tag holds the name pattern. *)
Definition has_name (tag : jsstring) : bool :=
  match first_name_value tag with Some _ => true | None => false end.

(** The document made of the pieces [ms], in that order, with the texts
    [g0] before the first and [gaps] after each. *)
Fixpoint weave (g0 : jsstring) (ms gaps : list jsstring) : jsstring :=
  match ms, gaps with
  | m :: ms', g :: gaps' => g0 ++ m ++ weave g ms' gaps'
  | _, _ => g0
  end.

(** The pieces [ms] are disjoint parts of [s] and come in document order. *)
Definition in_document_order (ms : list jsstring) (s : jsstring) : Prop :=
  exists g0 gaps, length gaps = length ms /\ s = weave g0 ms gaps.

(** A pattern begins with the literal [w] when none of its attempts can
    succeed on a text that does not start with [w]. *)
Definition begins_with (r : regex) (w : jsstring) : Prop :=
  forall t, startsWith t w = false -> exec_at r t = None.

(** Inversion of a reading of a pattern into its parts. *)
Ltac invert_derives :=
  repeat match goal with
         | H : derives (_ +++ _) _ _ _ _ |- _ => inversion H; subst; clear H
         | H : derives (Lit _) _ _ _ _ |- _ => inversion H; subst; clear H
         | H : derives (Grp _) _ _ _ _ |- _ => inversion H; subst; clear H
         | H : derives (Plus _) _ _ _ _ |- _ => inversion H; subst; clear H
         | H : derives (Star _) _ _ _ _ |- _ => inversion H; subst; clear H
         | H : derives (StarLazy _) _ _ _ _ |- _ => inversion H; subst; clear H
         end.

(** *** Vocabulary of the further properties *)

(** No argument is the flag [f] itself or starts with [f=]. *)
Definition flag_absent (f : jsstring) (args : list jsstring) : bool :=
  forallb (fun a => negb (str_eqb a f) && negb (startsWith a (f ++ str "="))) args.

(** The arguments every editor invocation starts with. *)
Definition base_args (unityProjectPath resultsPath logPath : jsstring)
           (platform : Platform) : list jsstring :=
  [ str "--burst-force-sync-compilation";
    str "-burst-force-sync-compilation";
    str "-runTests";
    str "-batchmode";
    str "-projectPath"; unityProjectPath;
    str "-testPlatform"; Platform_text platform;
    str "-testResults"; resultsPath;
    str "-logFile"; logPath ].

Definition header_open : jsstring := str "<test-run ".
Definition failure_open : jsstring := str "<failure>".
Definition failure_close : jsstring := str "</failure>".
Definition message_open : jsstring := str "<message><![CDATA[".
Definition message_close : jsstring := str "]]></message>".

(** A text with every CR LF pair replaced by LF. *)
Fixpoint normalize_newlines (s : jsstring) : jsstring :=
  match s with
  | [] => []
  | c :: s' =>
      match s' with
      | d :: s'' =>
          if chr_eqb c cr && chr_eqb d lf then lf :: normalize_newlines s''
          else c :: normalize_newlines s'
      | [] => [c]
      end
  end.

(** *** Readings of a results document by its text

    The definitions below read a document with [strip_prefix], [includes]
    and [trim] alone: they go through no pattern and not through the
    matcher. *)














(** The failed test-case tag a text starts with, and the text after it: the
    text starts with [<test-case], the text up to the next [>] holds
    [result=Failed] in that spelling, and the tag ends at that [>]. *)
Definition failed_tag_at (s : jsstring) : option (jsstring * jsstring) :=
  match strip_prefix case_tag s with
  | Some r =>
      match drop_while (not_chr gt) r with
      | [] => None
      | _ :: rest =>
          if includes (take_while (not_chr gt) r) result_failed
          then Some (case_tag ++ take_while (not_chr gt) r ++ [gt], rest)
          else None
      end
  | None => None
  end.

(** The failed test-case tags of a text, read left to right; [skip] counts
    the code units of the last tag still to be stepped over. *)
Fixpoint failed_tags_from (skip : nat) (s : jsstring) : list jsstring :=
  match s with
  | [] => []
  | _ :: s' =>
      match skip with
      | S n => failed_tags_from n s'
      | O =>
          match failed_tag_at s with
          | Some (tag, _) => tag :: failed_tags_from (length tag - 1) s'
          | None => failed_tags_from 0 s'
          end
      end
  end.

Definition failed_tags (xml : jsstring) : list jsstring := failed_tags_from 0 xml.

(** The failed-case lines of a summary for the tags [tags]: nothing when
    there is none, otherwise a header with their number and the dash line
    of each. *)
Definition failed_cases_text (tags : list jsstring) : jsstring :=
  match tags with
  | [] => []
  | _ :: _ => failed_cases_header (length tags) ++ concat (map dash_line tags)
  end.

(** The summary of a run that read the results document [xml], with the
    failed-case lines [cases] and the failure detail [detail] at their
    places: after the header and totals lines, before the footer. *)
Definition summary_of_document (w : World) (logPath : jsstring) (child : Process)
           (xml cases detail : jsstring) : jsstring :=
  appended (headerStage xml) ++ appended (totalsStage xml) ++
  cases ++ detail ++
  footer_text logPath (reported_code child) ++
  stream_section (str "[stdout tail]") (stdoutBuf child) ++
  stream_section (str "[stderr tail]") (stderrBuf child) ++
  grep_text (reported_code child) (readFile w logPath).

(** The summary of a run with the sections [out_section] and [err_section]
    of the two captured streams at their places: after the results lines
    and the footer, before the log-grep section. *)
Definition summary_of_streams (w : World) (resultsPath logPath : jsstring)
           (child : Process) (out_section err_section : jsstring) : jsstring :=
  results_text (readFile w resultsPath) ++
  footer_text logPath (reported_code child) ++
  out_section ++ err_section ++
  grep_text (reported_code child) (readFile w logPath).

(** The section a captured text [text] gets under [label]: none when the
    text is blank; the label and the whole text when it has at most 1000
    code units; the label and exactly its last 1000 code units, the head
    dropped, when it is longer. *)
Definition tail_section (label text section : jsstring) : Prop :=
  (blank text = true -> section = [])
  /\ (blank text = false -> length text <= 1000 ->
      section = nl ++ nl ++ label ++ nl ++ text)
  /\ (blank text = false -> 1000 < length text ->
      exists dropped kept,
        text = dropped ++ kept /\ length kept = 1000
        /\ section = nl ++ nl ++ label ++ nl ++ kept).

(** * Properties *)

(** ** The accumulator is append-only *)

Lemma append_only_append (t : jsstring) : append_only (append t).
Proof. intros s. reflexivity. Qed.

Lemma append_only_ret : append_only (ret tt).
Proof. intros s. unfold ret, appended. simpl. now rewrite app_nil_r. Qed.

Lemma appended_seq (m1 m2 : M unit) :
  append_only m1 -> append_only m2 ->
  appended (m1 ;; m2) = appended m1 ++ appended m2.
Proof.
  intros H1 H2. unfold appended at 1, bind.
  rewrite (H1 []). simpl. now rewrite H2.
Qed.

Lemma append_only_seq (m1 m2 : M unit) :
  append_only m1 -> append_only m2 -> append_only (m1 ;; m2).
Proof.
  intros H1 H2 s. rewrite (appended_seq H1 H2).
  unfold bind. rewrite (H1 s), (H2 (s ++ appended m1)).
  now rewrite app_assoc.
Qed.

Lemma append_only_when (c : bool) (m : M unit) :
  append_only m -> append_only (when c m).
Proof. destruct c; simpl; auto using append_only_ret. Qed.

Lemma append_only_for_of {A} (l : list A) (body : A -> M unit) :
  (forall x, append_only (body x)) -> append_only (for_of l body).
Proof.
  intros Hb. induction l as [|x l IH]; simpl.
  - apply append_only_ret.
  - apply append_only_seq; auto.
Qed.

Lemma appended_for_of {A} (l : list A) (body : A -> M unit) :
  (forall x, append_only (body x)) ->
  appended (for_of l body) = concat (map (fun x => appended (body x)) l).
Proof.
  intros Hb. induction l as [|x l IH]; simpl.
  - reflexivity.
  - rewrite appended_seq; auto using append_only_for_of. now rewrite IH.
Qed.

Lemma for_of_break_find {A} (q : A -> bool) (t : A -> jsstring)
      (body : A -> M bool) (l : list A) :
  (forall x s, body x s = if q x then (Returned true, s ++ t x)
                          else (Returned false, s)) ->
  forall s, for_of_break l body s =
            (Returned tt, s ++ match find q l with Some x => t x | None => [] end).
Proof.
  intros Hb. induction l as [|x l IH]; intros s; simpl.
  - unfold ret. now rewrite app_nil_r.
  - unfold bind. rewrite Hb. destruct (q x); [reflexivity | apply IH].
Qed.

(** ** What each stage appends *)

Lemma str_eqb_eq (a b : jsstring) : str_eqb a b = true <-> a = b.
Proof.
  revert b. induction a as [|x a IH]; intros [|y b]; simpl; try easy.
  unfold chr_eqb. rewrite andb_true_iff, Ascii.eqb_eq, IH.
  split; [intros [-> ->]; reflexivity | intros [= -> ->]; auto].
Qed.

Lemma str_eqb_nil (a : jsstring) : str_eqb a [] = negb (truthy a).
Proof. now destruct a. Qed.

Lemma headerStage_append_only xml : append_only (headerStage xml).
Proof.
  unfold headerStage. destruct (js_match re_header xml);
    auto using append_only_append, append_only_ret.
Qed.

Lemma totalsStage_append_only xml : append_only (totalsStage xml).
Proof.
  unfold totalsStage. destruct (js_match re_total xml);
    auto using append_only_append, append_only_ret.
Qed.

Lemma dash_line_append_only (line : jsstring) :
  append_only (match js_match re_name line with
               | Some n => append (str "  - " ++ group 1 n ++ nl)
               | None => ret tt
               end).
Proof.
  destruct (js_match re_name line);
    auto using append_only_append, append_only_ret.
Qed.

Lemma failedCasesStage_append_only xml : append_only (failedCasesStage xml).
Proof.
  unfold failedCasesStage. apply append_only_when, append_only_seq.
  - apply append_only_append.
  - apply append_only_for_of. intros x. apply dash_line_append_only.
Qed.

Lemma failureDetailStage_run xml s :
  failureDetailStage xml s =
  (Returned tt, s ++ first_qualifying_detail (failure_blocks xml)).
Proof.
  unfold failureDetailStage, first_qualifying_detail, failure_blocks.
  apply for_of_break_find. intros f s0.
  unfold qualifies, detail_text, failure_message, failure_stack.
  destruct (js_match re_message f) as [m|]; [|reflexivity].
  rewrite str_eqb_nil, negb_involutive.
  destruct (truthy (trim (group 1 m)) &&
            negb (str_eqb (trim (group 1 m)) generic_failure)); [|reflexivity].
  unfold bind, append, ret.
  destruct (js_match re_stack f) as [st|]; simpl;
    rewrite <- ?app_assoc; simpl; rewrite <- ?app_assoc, ?app_nil_r; reflexivity.
Qed.

Lemma failureDetailStage_append_only xml : append_only (failureDetailStage xml).
Proof.
  intros s. unfold appended. now rewrite !failureDetailStage_run.
Qed.

Lemma resultsStage_run w resultsPath s :
  resultsStage w resultsPath s =
  (Returned tt, s ++ results_text (readFile w resultsPath)).
Proof.
  unfold resultsStage, try_catch, bind, await, results_text.
  destruct (readFile w resultsPath) as [xml|e]; [|reflexivity].
  rewrite (headerStage_append_only xml s).
  rewrite (totalsStage_append_only xml).
  rewrite (failedCasesStage_append_only xml).
  rewrite (failureDetailStage_append_only xml).
  unfold parsed_text. now rewrite <- !app_assoc.
Qed.

Lemma footerStage_run logPath code s :
  footerStage logPath code s = (Returned tt, s ++ footer_text logPath code).
Proof.
  unfold footerStage, bind, append, footer_text.
  now rewrite <- !app_assoc.
Qed.

(** *** [trim] and blank texts *)

Lemma drop_while_blank (s : jsstring) :
  blank s = true -> drop_while is_space s = [].
Proof.
  induction s as [|c s IH]; simpl; [easy|].
  destruct (is_space c); simpl; [exact IH | discriminate].
Qed.

Lemma drop_while_not_blank (s : jsstring) :
  blank s = false -> exists c t, drop_while is_space s = c :: t /\ is_space c = false.
Proof.
  induction s as [|c s IH]; simpl; [discriminate|].
  destruct (is_space c) eqn:E; simpl; [exact IH|].
  intros _. now exists c, s.
Qed.

Lemma drop_while_snoc (p : ascii -> bool) (s : jsstring) (c : ascii) :
  p c = false -> drop_while p (s ++ [c]) <> [].
Proof.
  intros Hc. induction s as [|x s IH]; simpl.
  - now rewrite Hc.
  - destruct (p x); [exact IH | discriminate].
Qed.

Lemma truthy_trim (s : jsstring) : truthy (trim s) = negb (blank s).
Proof.
  unfold trim. destruct (blank s) eqn:B.
  - now rewrite (drop_while_blank s B).
  - destruct (drop_while_not_blank s B) as (c & t & -> & Hc). simpl.
    pose proof (drop_while_snoc is_space (rev t) c Hc) as Hne.
    destruct (drop_while is_space (rev t ++ [c])) as [|y l] eqn:E; [easy|].
    destruct (rev (y :: l)) eqn:R; [|reflexivity].
    apply (f_equal (@length _)) in R. rewrite length_rev in R. discriminate.
Qed.

Lemma last_chars_skipn {A} (n : nat) (l : list A) :
  last_chars n l = skipn (length l - n) l.
Proof. unfold last_chars. now rewrite firstn_rev, rev_involutive. Qed.

Lemma last_chars_short {A} (n : nat) (l : list A) :
  length l <= n -> last_chars n l = l.
Proof.
  intros H. rewrite last_chars_skipn.
  replace (length l - n) with 0 by lia. reflexivity.
Qed.

Lemma last_chars_length {A} (n : nat) (l : list A) :
  n <= length l -> length (last_chars n l) = n.
Proof. intros H. rewrite last_chars_skipn, length_skipn. lia. Qed.

Lemma last_chars_suffix {A} (n : nat) (l : list A) :
  l = firstn (length l - n) l ++ last_chars n l.
Proof. rewrite last_chars_skipn. now rewrite firstn_skipn. Qed.

Lemma tail_stream (label text : jsstring) :
  appended (when (truthy (trim text))
              (append (nl ++ nl ++ label ++ nl ++ tail text 1000))) =
  stream_section label text.
Proof.
  unfold stream_section, tail, slice_last. rewrite truthy_trim.
  destruct (blank text); simpl; [reflexivity|].
  now rewrite last_chars_skipn.
Qed.

Lemma tailsStage_run out err s :
  tailsStage out err s =
  (Returned tt, s ++ stream_section (str "[stdout tail]") out
                  ++ stream_section (str "[stderr tail]") err).
Proof.
  unfold tailsStage.
  assert (H : forall label text,
             append_only (when (truthy (trim text))
                            (append (nl ++ nl ++ label ++ nl ++ tail text 1000))))
    by (intros; apply append_only_when, append_only_append).
  unfold bind. rewrite (H (str "[stdout tail]") out s).
  rewrite (H (str "[stderr tail]") err).
  rewrite !tail_stream. now rewrite <- app_assoc.
Qed.

Lemma logGrepStage_run w logPath code s :
  logGrepStage w logPath code s =
  (Returned tt, s ++ grep_text code (readFile w logPath)).
Proof.
  unfold logGrepStage, grep_text.
  destruct (code =? 0)%Z; cbn [negb when].
  - unfold ret. now rewrite app_nil_r.
  - unfold try_catch, bind, await.
    destruct (readFile w logPath) as [logText|e];
      [|unfold log_failure_notice, grep_label, append;
        now rewrite <- !app_assoc].
    fold (error_lines logText).
    destruct (error_lines logText) as [|l errs] eqn:E;
      [unfold grep_none, grep_label, append; cbn [length Nat.ltb Nat.leb];
       now rewrite <- !app_assoc|].
    change (0 <? length (l :: errs)) with true. cbv iota.
    unfold append, grep_found, grep_label.
    set (all := l :: errs).
    assert (Hshown : (if 200 <? length all
                      then skipn (length all - 200) all else all)
                     = last_chars 200 all).
    { destruct (200 <? length all) eqn:L.
      - now rewrite last_chars_skipn.
      - apply Nat.ltb_ge in L. now rewrite last_chars_short. }
    cbv zeta. rewrite Hshown. rewrite <- !app_assoc. reflexivity.
Qed.

(** *** The whole summary *)

Lemma summarize_run w resultsPath logPath child :
  summarize w resultsPath logPath child [] =
  let text := before_grep w resultsPath logPath child ++
              grep_text (reported_code child) (readFile w logPath) in
  (Returned {| summary := text; exitCode := reported_code child |}, text).
Proof.
  unfold summarize, before_grep, bind. fold (reported_code child).
  rewrite resultsStage_run, footerStage_run, tailsStage_run, logGrepStage_run.
  unfold appended.
  rewrite resultsStage_run, footerStage_run, tailsStage_run.
  cbn [snd app]. rewrite <- !app_assoc. reflexivity.
Qed.

Lemma before_grep_eq w resultsPath logPath child :
  before_grep w resultsPath logPath child =
  results_text (readFile w resultsPath) ++
  footer_text logPath (reported_code child) ++
  stream_section (str "[stdout tail]") (stdoutBuf child) ++
  stream_section (str "[stderr tail]") (stderrBuf child).
Proof.
  unfold before_grep, appended.
  now rewrite resultsStage_run, footerStage_run, tailsStage_run.
Qed.

Lemma runUnityTests_configured w params ed proj :
  resolveUnityEditorPath w = Some ed -> truthy ed = true ->
  resolveUnityProjectPath w = Some proj -> truthy proj = true ->
  runUnityTests w params =
  let resultsPath := path_resolve w proj (str "results.xml") in
  let logPath := path_resolve w proj (str "batch.log") in
  let plat := match platform params with Some p => p | None => EditMode end in
  fst (summarize w resultsPath logPath
         (spawn w ed (editor_args proj resultsPath logPath plat (filter params)))
         []).
Proof.
  intros He Te Hp Tp. unfold runUnityTests. rewrite He, Hp.
  cbn [truthy_opt]. rewrite Te, Tp. reflexivity.
Qed.

Lemma runUnityTests_throws w params e :
  runUnityTests w params = Thrown e ->
  truthy_opt (resolveUnityEditorPath w) = false \/
  truthy_opt (resolveUnityProjectPath w) = false.
Proof.
  unfold runUnityTests.
  destruct (truthy_opt (resolveUnityEditorPath w)) eqn:Te; [|now left].
  destruct (truthy_opt (resolveUnityProjectPath w)) eqn:Tp; [|now right].
  destruct (resolveUnityEditorPath w) as [ed|]; [|discriminate].
  destruct (resolveUnityProjectPath w) as [proj|]; [|discriminate].
  rewrite summarize_run. discriminate.
Qed.

(** ** The claims *)

(** C1.  For every outcome of the editor run, whatever the exit code, the
    captured streams and the state of the results and log files,
    [summarize] returns a summary and the exit code and never throws: a
    failed read of the results document puts the fixed notice at the head
    of the summary, a failed read of the log (looked at only for a nonzero
    exit code) puts the failure notice with the error's description at its
    end.  [runUnityTests] throws only when the configuration is missing,
    before any process is spawned. *)
Theorem C1_summarizer_never_throws (w : World) :
  (forall resultsPath logPath child,
     exists text,
       summarize w resultsPath logPath child [] =
         (Returned {| summary := text; exitCode := reported_code child |}, text)
       /\ match readFile w resultsPath with
          | Thrown _ => exists rest, text = results_notice ++ rest
          | Returned _ => True
          end
       /\ match readFile w logPath with
          | Thrown e =>
              if (reported_code child =? 0)%Z then True
              else exists before, text = before ++ log_failure_notice e
          | Returned _ => True
          end)
  /\ (forall params,
        match runUnityTests w params with
        | Returned _ => True
        | Thrown _ =>
            truthy_opt (resolveUnityEditorPath w) = false \/
            truthy_opt (resolveUnityProjectPath w) = false
        end).
Proof.
  split.
  - intros resultsPath logPath child. eexists. split; [apply summarize_run|].
    split.
    + rewrite before_grep_eq.
      destruct (readFile w resultsPath); [exact I|].
      cbn [results_text]. rewrite <- !app_assoc. eexists. reflexivity.
    + destruct (readFile w logPath) as [|e]; [exact I|].
      unfold grep_text. destruct (reported_code child =? 0)%Z; [exact I|].
      eexists. reflexivity.
  - intros params. destruct (runUnityTests w params) eqn:E; [exact I|].
    eapply runUnityTests_throws; eauto.
Qed.

(** C8.  The summary is a function of the process outcome and of the
    contents of the two files alone: two runs with the same outcome, in
    environments that agree on the results file and on the log file and
    are otherwise arbitrary, produce the same summary and exit code. *)
Theorem C8_summary_deterministic (w1 w2 : World) (resultsPath logPath : jsstring)
        (child : Process) :
  readFile w1 resultsPath = readFile w2 resultsPath ->
  readFile w1 logPath = readFile w2 logPath ->
  summarize w1 resultsPath logPath child [] =
  summarize w2 resultsPath logPath child [].
Proof.
  intros Hr Hl. rewrite !summarize_run, !before_grep_eq.
  now rewrite Hr, Hl.
Qed.

(** C8 at two environments that differ in everything but the two files. *)
Lemma C8_summary_deterministic_witness :
  let child := sample_child (str "out") [] (Some 1%Z) in
  let results := Returned (quoted "<test-run total='1' failed='0'>") in
  let log := Returned (str "an error") in
  summarize (sample_world results log child)
            (str "/p/results.xml") (str "/p/batch.log") child [] =
  summarize (other_world results log child)
            (str "/p/results.xml") (str "/p/batch.log") child [].
Proof.
  intros child results log.
  apply C8_summary_deterministic; reflexivity.
Defined.

(** C9.  When the editor closes with a null exit code the run reports exit
    code 0: the summary ends before the log-grep section, it is the summary
    of the same process closing with code 0, and the tool response built
    from it is not flagged as an error. *)
Theorem C9_null_exit_code_reports_zero (w : World) :
  (forall resultsPath logPath child,
     closeCode child = None ->
     summarize w resultsPath logPath child [] =
       (Returned {| summary := before_grep w resultsPath logPath child;
                    exitCode := 0 |},
        before_grep w resultsPath logPath child)
     /\ summarize w resultsPath logPath child [] =
        summarize w resultsPath logPath
          {| stdoutBuf := stdoutBuf child; stderrBuf := stderrBuf child;
             closeCode := Some 0%Z |} [])
  /\ (forall filter platform,
        (forall ed args, closeCode (spawn w ed args) = None) ->
        match run_unity_tests_tool w filter platform with
        | Returned response => isError response = false
        | Thrown _ =>
            truthy_opt (resolveUnityEditorPath w) = false \/
            truthy_opt (resolveUnityProjectPath w) = false
        end).
Proof.
  split.
  - intros resultsPath logPath child Hnull.
    assert (Hcode : reported_code child = 0%Z)
      by (unfold reported_code; now rewrite Hnull).
    split.
    + rewrite summarize_run. cbv zeta. rewrite Hcode.
      unfold grep_text. cbn [Z.eqb]. now rewrite app_nil_r.
    + rewrite !summarize_run, !before_grep_eq. cbv zeta.
      now rewrite Hcode.
  - intros filter platform Hnull. unfold run_unity_tests_tool.
    destruct (runUnityTests w _) as [r|e] eqn:E.
    + cbn [isError]. revert E. unfold runUnityTests.
      destruct (if truthy_opt (resolveUnityEditorPath w) then _ else _);
        [|discriminate].
      destruct (if truthy_opt (resolveUnityProjectPath w) then _ else _);
        [|discriminate].
      rewrite summarize_run. cbv zeta. cbn [fst]. intros [= <-].
      cbn [exitCode]. unfold reported_code. now rewrite Hnull.
    + eapply runUnityTests_throws; eauto.
Qed.

(** C9 at an editor killed by a signal, with a log that holds an error line. *)
Lemma C9_null_exit_code_reports_zero_witness :
  let child := sample_child [] (str "Killed") None in
  let w := sample_world (Thrown enoent) (Returned (str "an error")) child in
  fst (summarize w (str "/p/results.xml") (str "/p/batch.log") child []) =
    Returned {| summary := before_grep w (str "/p/results.xml") (str "/p/batch.log") child;
                exitCode := 0 |}
  /\ match run_unity_tests_tool w None None with
     | Returned response => isError response = false
     | Thrown _ => False
     end.
Proof.
  intros child w.
  destruct (C9_null_exit_code_reports_zero w) as [Hsum Htool]. split.
  - destruct (Hsum (str "/p/results.xml") (str "/p/batch.log") child eq_refl)
      as [-> _]. reflexivity.
  - specialize (Htool None None (fun _ _ => eq_refl)).
    destruct (run_unity_tests_tool w None None); [exact Htool|].
    destruct Htool as [H|H]; vm_compute in H; discriminate H.
Defined.

(** C4.  The summary is the text before the log-grep section followed by
    that section, and the section is there exactly when the exit code is
    not zero.  For exit code 0 nothing is appended, whatever the log holds
    (it is not even read); for a nonzero exit code the section is always
    there; and when the log is readable and 250 of its lines contain
    [error] in some letter case, the header says [200/250 matches] and the
    section lists the last 200 of those lines, in their order. *)
Theorem C4_log_grep_section (w : World) (resultsPath logPath : jsstring)
        (child : Process) :
  exists section,
    summarize w resultsPath logPath child [] =
      (Returned {| summary := before_grep w resultsPath logPath child ++ section;
                   exitCode := reported_code child |},
       before_grep w resultsPath logPath child ++ section)
    /\ (reported_code child = 0%Z -> section = [])
    /\ (reported_code child <> 0%Z -> exists rest, section = grep_label ++ rest)
    /\ (reported_code child <> 0%Z ->
        forall logText,
          readFile w logPath = Returned logText ->
          length (error_lines logText) = 250 ->
          section = grep_label ++ str " (200/250 matches)]" ++ nl ++
                    join nl (last_chars 200 (error_lines logText))
          /\ length (last_chars 200 (error_lines logText)) = 200
          /\ error_lines logText =
             firstn 50 (error_lines logText) ++
             last_chars 200 (error_lines logText)).
Proof.
  exists (grep_text (reported_code child) (readFile w logPath)).
  split; [apply summarize_run|]. unfold grep_text.
  split; [|split].
  - intros ->. reflexivity.
  - intros Hc. apply Z.eqb_neq in Hc. rewrite Hc.
    destruct (readFile w logPath) as [logText|e].
    + destruct (error_lines logText); eexists;
        unfold grep_none, grep_found; cbv zeta; reflexivity.
    + eexists. unfold log_failure_notice. reflexivity.
  - intros Hc logText Hread Hlen. apply Z.eqb_neq in Hc. rewrite Hc, Hread.
    destruct (error_lines logText) as [|l errs] eqn:E; [discriminate Hlen|].
    rewrite <- E in *. clear E l errs.
    assert (Hshown : length (last_chars 200 (error_lines logText)) = 200)
      by (apply last_chars_length; lia).
    split; [|split].
    + unfold grep_found. cbv zeta. rewrite Hshown, Hlen.
      change (show_nat 200) with (str "200").
      change (show_nat 250) with (str "250").
      unfold grep_label. rewrite <- ?app_assoc. reflexivity.
    + exact Hshown.
    + rewrite (last_chars_suffix 200 (error_lines logText)) at 1.
      now rewrite Hlen.
Qed.

(** C4 at a log of 250 matching lines and one other line, for exit codes 0
    and 1. *)
Lemma C4_log_grep_section_witness :
  let log := lines_of 250 (str "Compile ERROR here") ++ nl ++ str "done" in
  (forall child,
     closeCode child = Some 0%Z ->
     fst (summarize (sample_world (Thrown enoent) (Returned log) child)
            (str "/p/results.xml") (str "/p/batch.log") child []) =
     Returned {| summary :=
                   before_grep (sample_world (Thrown enoent) (Returned log) child)
                     (str "/p/results.xml") (str "/p/batch.log") child;
                 exitCode := 0 |})
  /\ (let child := sample_child [] [] (Some 1%Z) in
      let w := sample_world (Thrown enoent) (Returned log) child in
      fst (summarize w (str "/p/results.xml") (str "/p/batch.log") child []) =
      Returned {| summary :=
                    before_grep w (str "/p/results.xml") (str "/p/batch.log") child ++
                    grep_label ++ str " (200/250 matches)]" ++ nl ++
                    lines_of 200 (str "Compile ERROR here");
                  exitCode := 1 |}).
Proof.
  intros log. split.
  - intros child Hc.
    destruct (C4_log_grep_section
                (sample_world (Thrown enoent) (Returned log) child)
                (str "/p/results.xml") (str "/p/batch.log") child)
      as (section & -> & Hzero & _).
    assert (Hr : reported_code child = 0%Z)
      by (unfold reported_code; now rewrite Hc).
    cbn [fst]. rewrite Hr, (Hzero Hr), app_nil_r. reflexivity.
  - intros child w.
    destruct (C4_log_grep_section w (str "/p/results.xml") (str "/p/batch.log") child)
      as (section & -> & _ & _ & Hcap).
    assert (Hne : reported_code child <> 0%Z) by (vm_compute; discriminate).
    destruct (Hcap Hne log eq_refl ltac:(vm_compute; reflexivity)) as (-> & _ & _).
    cbn [fst]. vm_compute. reflexivity.
Defined.

(** ** The matcher *)

(** A greedy star never gives back a code unit when the continuation
    cannot start where the class still applies, nor at the end. *)
Lemma star_greedy_stop {R} (p : ascii -> bool) (k : cont R) :
  (forall caps, k [] caps = None) ->
  (forall c s caps, p c = true -> k (c :: s) caps = None) ->
  forall s caps, star_greedy p s caps k = k (drop_while p s) caps.
Proof.
  intros Hnil Hp. induction s as [|c s IH]; intros caps; simpl.
  - reflexivity.
  - destruct (p c) eqn:E; [|reflexivity].
    rewrite IH. destruct (k (drop_while p s) caps); [reflexivity|].
    now apply Hp.
Qed.

Lemma drop_while_length (p : ascii -> bool) (s : jsstring) :
  length (drop_while p s) <= length s.
Proof.
  induction s as [|c s IH]; simpl; [lia|]. destruct (p c); simpl; lia.
Qed.

Lemma until_quote_drop_while (s : jsstring) :
  until_quote s =
  match drop_while (not_chr dq) s with
  | [] => None
  | _ :: _ => Some (firstn (length s - length (drop_while (not_chr dq) s)) s)
  end.
Proof.
  induction s as [|c s IH]; [reflexivity|].
  cbn [until_quote drop_while]. unfold not_chr at 1 3.
  destruct (chr_eqb c dq) eqn:E; cbn [negb].
  - now rewrite Nat.sub_diag.
  - rewrite IH. pose proof (drop_while_length (not_chr dq) s) as L.
    destruct (drop_while (not_chr dq) s) as [|d t] eqn:D; [reflexivity|].
    replace (length (c :: s) - length (d :: t))
      with (S (length s - length (d :: t))) by (cbn [length] in *; lia).
    reflexivity.
Qed.

Lemma drop_while_head (p : ascii -> bool) (s : jsstring) c t :
  drop_while p s = c :: t -> p c = false.
Proof.
  induction s as [|x s IH]; simpl; [discriminate|].
  destruct (p x) eqn:E; [exact IH|]. now intros [= <- <-].
Qed.

(** One attempt of the name pattern reads [name=], the quote, the value up
    to the next quote, and that quote. *)
Lemma exec_at_re_name (s : jsstring) :
  match exec_at re_name s with
  | Some (m, _) => Some (group 1 m)
  | None => None
  end = name_value_at s.
Proof.
  unfold exec_at, name_value_at, re_name. cbn [run].
  fold name_eq_quote.
  destruct (strip_prefix name_eq_quote s) as [r|]; [|reflexivity].
  rewrite star_greedy_stop.
  - rewrite until_quote_drop_while.
    destruct (drop_while (not_chr dq) r) as [|d t] eqn:D; [reflexivity|].
    apply drop_while_head in D as Hd. unfold not_chr in Hd.
    apply negb_false_iff in Hd. cbn [strip_prefix].
    unfold chr_eqb in *. rewrite Ascii.eqb_sym, Hd. reflexivity.
  - reflexivity.
  - intros c s' caps Hc. cbn [strip_prefix]. unfold not_chr in Hc.
    apply negb_true_iff in Hc. unfold chr_eqb in *.
    now rewrite Ascii.eqb_sym, Hc.
Qed.

(** The name pattern captures the value of its first occurrence. *)
Lemma js_match_re_name (tag : jsstring) :
  match js_match re_name tag with
  | Some n => Some (group 1 n)
  | None => None
  end = first_name_value tag.
Proof.
  induction tag as [|c tag IH]; cbn [js_match first_name_value].
  - rewrite <- exec_at_re_name. now destruct (exec_at re_name []) as [[m r]|].
  - rewrite <- exec_at_re_name.
    destruct (exec_at re_name (c :: tag)) as [[m r]|]; [reflexivity|exact IH].
Qed.

Lemma dash_line_appended (tag : jsstring) :
  appended (match js_match re_name tag with
            | Some n => append (str "  - " ++ group 1 n ++ nl)
            | None => ret tt
            end) = dash_line tag.
Proof.
  unfold dash_line. rewrite <- js_match_re_name.
  now destruct (js_match re_name tag).
Qed.

Lemma failedCasesStage_appended (xml : jsstring) :
  appended (failedCasesStage xml) =
  match failed_case_tags xml with
  | [] => []
  | tags => failed_cases_header (length tags) ++ concat (map dash_line tags)
  end.
Proof.
  unfold failedCasesStage. fold (failed_case_tags xml).
  destruct (failed_case_tags xml) as [|t tags] eqn:E; [reflexivity|].
  change (0 <? length (t :: tags)) with true. cbn [when].
  rewrite appended_seq.
  - rewrite appended_for_of by (intros; apply dash_line_append_only).
    unfold failed_cases_header, appended at 1. cbn [append snd app].
    rewrite (map_ext _ _ dash_line_appended).
    rewrite <- ?app_assoc. reflexivity.
  - apply append_only_append.
  - apply append_only_for_of. intros; apply dash_line_append_only.
Qed.

(** *** Soundness and completeness of the matcher *)

Lemma chr_eqb_eq (a b : ascii) : chr_eqb a b = true <-> a = b.
Proof. apply Ascii.eqb_eq. Qed.

Lemma chr_eqb_refl (a : ascii) : chr_eqb a a = true.
Proof. now apply chr_eqb_eq. Qed.

Lemma strip_prefix_Some (p s r : jsstring) :
  strip_prefix p s = Some r <-> s = p ++ r.
Proof.
  revert s. induction p as [|x p IH]; intros s; simpl.
  - split; [now intros [= ->] | now intros ->].
  - destruct s as [|y s]; [easy|].
    destruct (chr_eqb x y) eqn:E.
    + apply chr_eqb_eq in E as ->. rewrite IH.
      split; [now intros -> | now intros [= ->]].
    + split; [discriminate|]. intros [= -> _].
      now rewrite chr_eqb_refl in E.
Qed.

Lemma strip_prefix_app (p r : jsstring) : strip_prefix p (p ++ r) = Some r.
Proof. now apply strip_prefix_Some. Qed.

Section MatcherFacts.

Variable R : Type.
Implicit Types (k : cont R) (s u : jsstring) (caps : list jsstring).

Lemma star_greedy_sound p k s caps x :
  star_greedy p s caps k = Some x ->
  exists u s', s = u ++ s' /\ forallb p u = true /\ k s' caps = Some x.
Proof.
  induction s as [|c s IH]; simpl.
  - intros H. now exists [], [].
  - destruct (p c) eqn:E.
    + destruct (star_greedy p s caps k) as [y|] eqn:G.
      * intros [= ->]. destruct (IH eq_refl) as (u & s' & -> & Hu & Hk).
        exists (c :: u), s'. simpl. now rewrite E, Hu.
      * intros H. now exists [], (c :: s).
    + intros H. now exists [], (c :: s).
Qed.

Lemma star_greedy_complete p k u s caps x :
  forallb p u = true -> k s caps = Some x ->
  exists y, star_greedy p (u ++ s) caps k = Some y.
Proof.
  intros Hu Hk. induction u as [|c u IH]; simpl in *.
  - destruct s as [|d s]; simpl; [eauto|].
    destruct (p d); [|eauto].
    destruct (star_greedy p s caps k); eauto.
  - apply andb_true_iff in Hu as [Hc Hu]. rewrite Hc.
    destruct (IH Hu) as [y ->]. eauto.
Qed.

Lemma star_lazy_sound p k s caps x :
  star_lazy p s caps k = Some x ->
  exists u s', s = u ++ s' /\ forallb p u = true /\ k s' caps = Some x.
Proof.
  induction s as [|c s IH]; simpl.
  - destruct (k [] caps) eqn:K; [|discriminate].
    intros [= ->]. now exists [], [].
  - destruct (k (c :: s) caps) as [y|] eqn:K.
    + intros [= ->]. now exists [], (c :: s).
    + destruct (p c) eqn:E; [|discriminate].
      intros H. destruct (IH H) as (u & s' & -> & Hu & Hk).
      exists (c :: u), s'. simpl. now rewrite E, Hu.
Qed.

Lemma star_lazy_complete p k u s caps x :
  forallb p u = true -> k s caps = Some x ->
  exists y, star_lazy p (u ++ s) caps k = Some y.
Proof.
  intros Hu Hk. induction u as [|c u IH]; simpl in *.
  - destruct s as [|d s]; simpl; rewrite Hk; eauto.
  - apply andb_true_iff in Hu as [Hc Hu].
    destruct (k (c :: u ++ s) caps); [eauto|].
    rewrite Hc. now apply IH.
Qed.

End MatcherFacts.

(** Whatever the matcher returns comes from a reading of the pattern. *)
Lemma run_sound {R} (r : regex) :
  forall (k : cont R) s caps x,
    run r s caps k = Some x ->
    exists s' caps', derives r s caps s' caps' /\ k s' caps' = Some x.
Proof.
  induction r as [l|p|p|p|p|p|r IH|r1 IH1 r2 IH2]; intros k s caps x; cbn [run].
  - destruct (strip_prefix l s) as [s'|] eqn:E; [|discriminate].
    apply strip_prefix_Some in E as ->. intros H.
    exists s', caps. split; [constructor | exact H].
  - destruct s as [|c s]; [discriminate|].
    destruct (p c) eqn:E; [|discriminate]. intros H.
    exists s, caps. split; [now constructor | exact H].
  - intros H. apply star_greedy_sound in H as (u & s' & -> & Hu & Hk).
    exists s', caps. split; [now constructor | exact Hk].
  - destruct s as [|c s]; [discriminate|].
    destruct (p c) eqn:E; [|discriminate]. intros H.
    apply star_greedy_sound in H as (u & s' & -> & Hu & Hk).
    exists s', caps. split; [now constructor | exact Hk].
  - intros H. apply star_lazy_sound in H as (u & s' & -> & Hu & Hk).
    exists s', caps. split; [now constructor | exact Hk].
  - destruct s as [|c s].
    + intros H. exists [], caps. split; [constructor | exact H].
    + destruct (p c) eqn:E.
      * destruct (k s caps) as [y|] eqn:K.
        -- intros [= ->]. exists s, caps. split; [now constructor | exact K].
        -- intros H. exists (c :: s), caps. split; [constructor | exact H].
      * intros H. exists (c :: s), caps. split; [constructor | exact H].
  - intros H. apply IH in H as (s' & caps' & Hd & Hk).
    eexists _, _. split; [constructor; exact Hd | exact Hk].
  - intros H. apply IH1 in H as (s1 & caps1 & Hd1 & H).
    apply IH2 in H as (s2 & caps2 & Hd2 & Hk).
    exists s2, caps2. split; [econstructor; eassumption | exact Hk].
Qed.

(** When some reading of the pattern lets the continuation succeed, the
    matcher succeeds. *)
Lemma run_complete {R} r s caps s' caps' :
  derives r s caps s' caps' ->
  forall (k : cont R) x, k s' caps' = Some x ->
  exists y, run r s caps k = Some y.
Proof.
  induction 1 as [l s caps|p c s caps Hc|p u s caps Hu|p c u s caps Hc Hu
                  |p u s caps Hu|p c s caps Hc|p s caps
                  |r s caps s' caps' Hd IH
                  |r1 r2 s caps s1 caps1 s2 caps2 Hd1 IH1 Hd2 IH2];
    intros k x Hk; cbn [run].
  - rewrite strip_prefix_app. eauto.
  - rewrite Hc. eauto.
  - eapply star_greedy_complete; eauto.
  - rewrite Hc. eapply star_greedy_complete; eauto.
  - eapply star_lazy_complete; eauto.
  - rewrite Hc, Hk. eauto.
  - destruct s as [|c s]; [eauto|].
    destruct (p c); [|eauto]. destruct (k s caps); eauto.
  - eapply IH. exact Hk.
  - destruct (IH2 k x Hk) as [y Hy]. eapply IH1. exact Hy.
Qed.

(** *** Occurrences of a text *)

Lemma startsWith_app (w x : jsstring) : startsWith (w ++ x) w = true.
Proof. unfold startsWith. now rewrite strip_prefix_app. Qed.

Lemma startsWith_true (s w : jsstring) :
  startsWith s w = true <-> exists x, s = w ++ x.
Proof.
  unfold startsWith. split.
  - destruct (strip_prefix w s) as [r|] eqn:E; [|discriminate].
    intros _. exists r. now apply strip_prefix_Some.
  - intros [x ->]. now rewrite strip_prefix_app.
Qed.

Lemma startsWith_long (a x w : jsstring) :
  length w <= length a -> startsWith (a ++ x) w = startsWith a w.
Proof.
  unfold startsWith. revert a.
  induction w as [|c w IH]; intros a L; simpl; [reflexivity|].
  destruct a as [|d a]; simpl in *; [lia|].
  destruct (chr_eqb c d); [apply IH; lia | reflexivity].
Qed.

Lemma count_sub_ge (x w y : jsstring) : 1 <= count_sub (x ++ w ++ y) w.
Proof.
  induction x as [|c x IH]; cbn [app].
  - pose proof (startsWith_app w y) as H.
    destruct (w ++ y); cbn [count_sub]; rewrite H; lia.
  - cbn [count_sub]. lia.
Qed.

Lemma count_sub_cons (c : ascii) (s w : jsstring) :
  count_sub (c :: s) w = (if startsWith (c :: s) w then 1 else 0) + count_sub s w.
Proof. reflexivity. Qed.

(** A text that occurs once occurs at one place. *)
Lemma count_sub_unique (w : jsstring) :
  forall s x y x' y',
    count_sub s w = 1 -> s = x ++ w ++ y -> s = x' ++ w ++ y' -> x = x'.
Proof.
  intros s x. revert s.
  induction x as [|c x IH]; intros s y x' y' Hc Hx Hx'; cbn [app] in Hx.
  - destruct x' as [|c' x']; [reflexivity|]. exfalso. cbn [app] in Hx'.
    assert (Hs : startsWith s w = true)
      by (apply startsWith_true; now exists y).
    rewrite Hx' in Hc, Hs. rewrite count_sub_cons, Hs in Hc.
    pose proof (count_sub_ge x' w y'). lia.
  - destruct x' as [|c' x']; cbn [app] in Hx'.
    + exfalso.
      assert (Hs : startsWith s w = true)
        by (apply startsWith_true; now exists y').
      rewrite Hx in Hc, Hs. rewrite count_sub_cons, Hs in Hc.
      pose proof (count_sub_ge x w y). lia.
    + rewrite Hx in Hx'. injection Hx' as -> Htl. f_equal.
      apply (IH (x ++ w ++ y) y x' y'); [|reflexivity|exact Htl].
      rewrite Hx, count_sub_cons in Hc.
      pose proof (count_sub_ge x w y).
      destruct (startsWith (c' :: x ++ w ++ y) w); lia.
Qed.

Lemma begins_with_lit (w : jsstring) (r : regex) : begins_with (Lit w +++ r) w.
Proof.
  intros t Ht. unfold exec_at. cbn [run]. unfold startsWith in Ht.
  now destruct (strip_prefix w t).
Qed.

(** Before the only occurrence of the literal a pattern begins with, no
    attempt of the pattern succeeds. *)
Lemma js_match_skip (w : jsstring) (r : regex) (pre x : jsstring) :
  begins_with r w -> count_sub (pre ++ w) w = 1 ->
  js_match r (pre ++ w ++ x) = js_match r (w ++ x).
Proof.
  intros Hr. induction pre as [|c pre IH]; intros Hc; [reflexivity|].
  cbn [app] in *. rewrite count_sub_cons in Hc.
  pose proof (count_sub_ge pre w []) as Hge. rewrite app_nil_r in Hge.
  assert (Hs : startsWith (c :: pre ++ w) w = false)
    by (destruct (startsWith (c :: pre ++ w) w); [lia | reflexivity]).
  rewrite Hs in Hc.
  cbn [js_match]. rewrite Hr; [apply IH; exact Hc|].
  pose proof (startsWith_long (c :: pre ++ w) x w) as Hl.
  cbn [length] in Hl. rewrite length_app in Hl. specialize (Hl ltac:(lia)).
  rewrite Hs in Hl. now rewrite <- app_comm_cons, <- app_assoc in Hl.
Qed.

Lemma js_match_none (w : jsstring) (r : regex) (s : jsstring) :
  begins_with r w -> count_sub s w = 0 -> js_match r s = None.
Proof.
  intros Hr.
  induction s as [|c s IH]; cbn [count_sub js_match]; intros Hc.
  - rewrite Hr; [reflexivity|]. destruct (startsWith [] w); [lia|reflexivity].
  - rewrite Hr; [apply IH; lia|].
    destruct (startsWith (c :: s) w); [lia|reflexivity].
Qed.

(** In a document with one occurrence of the literal a pattern begins
    with, the match is decided by the attempt at that occurrence. *)
Lemma js_match_only (w : jsstring) (r : regex) (pre x : jsstring) :
  begins_with r w -> w <> [] -> count_sub (pre ++ w ++ x) w = 1 ->
  js_match r (pre ++ w ++ x) =
  match exec_at r (w ++ x) with
  | Some (m, _) => Some m
  | None => None
  end.
Proof.
  intros Hr Hw. induction pre as [|c pre IH]; cbn [app]; intros Hc.
  - destruct w as [|c0 w]; [easy|]. cbn [app] in *.
    rewrite count_sub_cons in Hc.
    change (c0 :: w ++ x) with ((c0 :: w) ++ x) in Hc.
    rewrite startsWith_app in Hc. cbn [js_match].
    destruct (exec_at _ _) as [[m rest]|]; [reflexivity|].
    eapply js_match_none; [exact Hr|]. cbn [app] in Hc. lia.
  - rewrite count_sub_cons in Hc. pose proof (count_sub_ge pre w x) as Hge.
    cbn [js_match].
    destruct (startsWith (c :: pre ++ w ++ x) w) eqn:Hs; [lia|].
    rewrite (Hr _ Hs). apply IH. lia.
Qed.

Lemma js_match_here (r : regex) (s : jsstring) m rest :
  exec_at r s = Some (m, rest) -> js_match r s = Some m.
Proof. intros H. destruct s; cbn [js_match]; now rewrite H. Qed.

(** *** The readings of the totals pattern *)

Lemma firstn_app_diff {A} (u s : list A) :
  firstn (length (u ++ s) - length s) (u ++ s) = u.
Proof.
  rewrite length_app. replace (length u + length s - length s) with (length u) by lia.
  rewrite firstn_app, Nat.sub_diag, firstn_all. cbn [firstn]. apply app_nil_r.
Qed.

Lemma digits_cons (c : ascii) (u : jsstring) :
  is_digit c = true -> forallb is_digit u = true -> digits (c :: u) = true.
Proof. intros Hc Hu. unfold digits. cbn. now rewrite Hc, Hu. Qed.

Lemma derives_re_total (s s' : jsstring) (caps : list jsstring) :
  derives re_total s [] s' caps ->
  exists u1 d1 u2 d2,
    s = run_tag ++ u1 ++ total_attr ++ d1 ++ [dq] ++ u2 ++ failed_attr ++ d2 ++ [dq] ++ s'
    /\ caps = [d1; d2]
    /\ u1 <> [] /\ tag_text u1 = true /\ digits d1 = true
    /\ u2 <> [] /\ tag_text u2 = true /\ digits d2 = true.
Proof.
  unfold re_total. intros H. invert_derives.
  repeat match goal with
         | |- context [firstn (length (?c :: ?u ++ ?t) - length ?t) (?c :: ?u ++ ?t)] =>
             change (firstn (length (c :: u ++ t) - length t) (c :: u ++ t))
               with (firstn (length ((c :: u) ++ t) - length t) ((c :: u) ++ t));
             rewrite (firstn_app_diff (c :: u) t)
         end.
  match goal with
  | Ha : not_chr gt ?a = true, Hu : forallb (not_chr gt) ?u = true,
    Hb : not_chr gt ?b = true, Hv : forallb (not_chr gt) ?v = true,
    Hc : is_digit ?c = true, Hx : forallb is_digit ?x = true,
    Hd : is_digit ?d = true, Hy : forallb is_digit ?y = true
    |- context [?a :: ?u ++ _ ++ ?c :: ?x ++ _ ++ ?b :: ?v ++ _ ++ ?d :: ?y ++ _] =>
      exists (a :: u), (c :: x), (b :: v), (d :: y)
  end.
  unfold tag_text. cbn [forallb].
  repeat match goal with H : _ = true |- _ => rewrite H end.
  repeat split; try discriminate; try reflexivity.
  all: now apply digits_cons.
Qed.

(** A text without [>] that starts a tag closed by [>] lies inside it. *)
Lemma tag_text_prefix (p z body post : jsstring) :
  tag_text p = true -> p ++ z = body ++ gt :: post ->
  exists y, body = p ++ y.
Proof.
  revert body. induction p as [|c p IH]; intros body Hp E.
  - now exists body.
  - cbn in Hp. apply andb_true_iff in Hp as [Hc Hp].
    destruct body as [|d body]; cbn [app] in E.
    + injection E as -> _. unfold not_chr in Hc.
      now rewrite chr_eqb_refl in Hc.
    + injection E as -> E. destruct (IH body Hp E) as [y ->]. now exists y.
Qed.

Lemma tag_text_app (a b : jsstring) :
  tag_text (a ++ b) = tag_text a && tag_text b.
Proof. apply forallb_app. Qed.

Lemma digits_forallb (d : jsstring) : digits d = true -> forallb is_digit d = true.
Proof. unfold digits. now intros [_ H]%andb_true_iff. Qed.

(** Two digit runs that end at a double quote in the same text are equal. *)
Lemma digits_quote_inv (d1 d2 x y : jsstring) :
  forallb is_digit d1 = true -> forallb is_digit d2 = true ->
  d1 ++ dq :: x = d2 ++ dq :: y -> d1 = d2 /\ x = y.
Proof.
  revert d2. induction d1 as [|c d1 IH]; intros [|c' d2] H1 H2 E; cbn [app] in E.
  - now injection E as ->.
  - injection E as <- _. cbn in H2. discriminate.
  - injection E as -> _. cbn in H1. discriminate.
  - injection E as -> E. cbn in H1, H2.
    apply andb_true_iff in H1 as [_ H1]. apply andb_true_iff in H2 as [_ H2].
    destruct (IH d2 H1 H2 E) as [-> ->]. now split.
Qed.

Lemma derives_lit_seq l r s caps s' caps' :
  derives r s caps s' caps' -> derives (Lit l +++ r) (l ++ s) caps s' caps'.
Proof. intros H. econstructor; [constructor | exact H]. Qed.

Lemma derives_plus_seq p u r s caps s' caps' :
  u <> [] -> forallb p u = true ->
  derives r s caps s' caps' -> derives (Plus p +++ r) (u ++ s) caps s' caps'.
Proof.
  intros Hu Hp H. destruct u as [|c u]; [easy|].
  cbn in Hp. apply andb_true_iff in Hp as [Hc Hp].
  econstructor; [|exact H]. cbn [app]. now constructor.
Qed.

Lemma derives_grp_plus_seq p u r s caps s' caps' :
  u <> [] -> forallb p u = true ->
  derives r s (caps ++ [u]) s' caps' ->
  derives (Grp (Plus p) +++ r) (u ++ s) caps s' caps'.
Proof.
  intros Hu Hp H. destruct u as [|c u]; [easy|].
  cbn in Hp. apply andb_true_iff in Hp as [Hc Hp].
  econstructor; [|exact H].
  replace (caps ++ [c :: u])
    with (caps ++ [firstn (length ((c :: u) ++ s) - length s) ((c :: u) ++ s)])
    by now rewrite firstn_app_diff.
  constructor. cbn [app]. now constructor.
Qed.

Lemma digits_nonempty (d : jsstring) : digits d = true -> d <> [].
Proof. unfold digits. now destruct d. Qed.

(** The header tag of the amended claim: after [<test-run], a text [a], the
    total attribute with value [N], a text [b], the failed attribute with
    value [M], a text [c], and the closing [>]. *)
Lemma exec_at_re_total (a N b M c post : jsstring) :
  let body := a ++ total_attr ++ N ++ [dq] ++ b ++ failed_attr ++ M ++ [dq] ++ c in
  a <> [] -> b <> [] -> digits N = true -> digits M = true ->
  tag_text body = true ->
  count_sub body total_attr = 1 -> count_sub body failed_attr = 1 ->
  exists m0 rest,
    exec_at re_total (run_tag ++ body ++ gt :: post) = Some ([m0; N; M], rest).
Proof.
  intros body Ha Hb HN HM Htag HcT HcF.
  set (s := run_tag ++ body ++ gt :: post).
  assert (Es0 : s = run_tag ++ a ++ total_attr ++ N ++ [dq] ++ b ++ failed_attr
                     ++ M ++ [dq] ++ c ++ gt :: post)
    by (unfold s, body; now rewrite <- ?app_assoc).
  assert (Ta : tag_text a = true /\ tag_text b = true).
  { unfold body in Htag. rewrite !tag_text_app in Htag.
    repeat (apply andb_true_iff in Htag as [? Htag]). now split. }
  destruct Ta as [Ta Tb].
  assert (Hd : derives re_total s [] (c ++ gt :: post) [N; M]).
  { rewrite Es0. unfold re_total.
    apply derives_lit_seq, derives_plus_seq; [exact Ha | exact Ta |].
    apply derives_lit_seq.
    apply derives_grp_plus_seq;
      [now apply digits_nonempty | now apply digits_forallb |].
    apply derives_lit_seq, derives_plus_seq; [exact Hb | exact Tb |].
    apply derives_lit_seq.
    apply derives_grp_plus_seq;
      [now apply digits_nonempty | now apply digits_forallb |].
    constructor. }
  destruct (run_complete Hd (fun s' caps => Some (s', caps)) eq_refl) as [[s' caps] Hrun].
  destruct (run_sound _ _ _ _ Hrun) as (s1 & caps1 & Hd1 & [= <- <-]).
  apply derives_re_total in Hd1
    as (u1 & d1 & u2 & d2 & Es & -> & Hu1 & Tu1 & Dd1 & Hu2 & Tu2 & Dd2).
  unfold exec_at. rewrite Hrun.
  (* the total attribute of the reading is the one of the tag *)
  assert (E1 : u1 = a).
  { pose proof Es as E. unfold s in E. apply app_inv_head in E.
    rewrite (app_assoc u1) in E. symmetry in E.
    apply tag_text_prefix in E as [y Ey].
    2:{ rewrite tag_text_app, Tu1. reflexivity. }
    rewrite <- app_assoc in Ey.
    eapply (@count_sub_unique total_attr body u1 y a); [exact HcT|exact Ey|].
    reflexivity. }
  subst u1. rewrite Es0 in Es.
  do 3 apply app_inv_head in Es.
  apply digits_quote_inv in Es as [<- Es]; try now apply digits_forallb.
  (* and so is the failed attribute *)
  assert (E2 : u2 = b).
  { assert (E : (u2 ++ failed_attr) ++ (d2 ++ [dq] ++ s1) =
                (b ++ failed_attr ++ M ++ [dq] ++ c) ++ gt :: post)
      by (rewrite <- !app_assoc; symmetry; exact Es).
    apply tag_text_prefix in E as [y Ey].
    2:{ rewrite tag_text_app, Tu2. reflexivity. }
    assert (Eb : body = (a ++ total_attr ++ N ++ [dq] ++ u2) ++ failed_attr ++ y).
    { unfold body. rewrite Ey. now rewrite <- !app_assoc. }
    assert (Eb' : body = (a ++ total_attr ++ N ++ [dq] ++ b) ++ failed_attr
                          ++ M ++ [dq] ++ c)
      by (unfold body; now rewrite <- ?app_assoc).
    pose proof (@count_sub_unique failed_attr body _ _ _ _ HcF Eb Eb') as Eq.
    do 4 apply app_inv_head in Eq. exact Eq. }
  subst u2. do 2 apply app_inv_head in Es.
  apply digits_quote_inv in Es as [<- Es]; try now apply digits_forallb.
  eauto.
Qed.

Lemma re_total_begins : begins_with re_total run_tag.
Proof. apply begins_with_lit. Qed.

Lemma digits_tag_text (d : jsstring) :
  forallb is_digit d = true -> tag_text d = true.
Proof.
  unfold tag_text. induction d as [|x d IH]; [reflexivity|].
  cbn [forallb]. intros [Hx Hd]%andb_true_iff. rewrite (IH Hd), andb_true_r.
  unfold not_chr. destruct (chr_eqb x gt) eqn:Eg; [|reflexivity].
  apply chr_eqb_eq in Eg. subst x. discriminate Hx.
Qed.

(** When the only failed attribute of the header tag stands before its
    only total attribute, the totals pattern has no reading there. *)
Lemma exec_at_re_total_reversed (a N b M c post : jsstring) :
  let body := a ++ failed_attr ++ M ++ [dq] ++ b ++ total_attr ++ N ++ [dq] ++ c in
  tag_text body = true ->
  count_sub body total_attr = 1 -> count_sub body failed_attr = 1 ->
  exec_at re_total (run_tag ++ body ++ gt :: post) = None.
Proof.
  intros body Htag HcT HcF. unfold exec_at.
  destruct (run re_total _ [] _) as [[s0 caps0]|] eqn:Hrun; [exfalso|reflexivity].
  destruct (run_sound _ _ _ _ Hrun) as (s1 & caps1 & Hd & [= <- <-]).
  apply derives_re_total in Hd
    as (u1 & d1 & u2 & d2 & Es & -> & Hu1 & Tu1 & Dd1 & Hu2 & Tu2 & Dd2).
  apply app_inv_head in Es.
  assert (Ebody : body = (a ++ failed_attr ++ M ++ [dq] ++ b) ++ total_attr
                          ++ N ++ [dq] ++ c)
    by (unfold body; now rewrite <- ?app_assoc).
  assert (E1 : u1 = a ++ failed_attr ++ M ++ [dq] ++ b).
  { pose proof Es as E. rewrite (app_assoc u1) in E. symmetry in E.
    apply tag_text_prefix in E as [y Ey].
    2:{ rewrite tag_text_app, Tu1. reflexivity. }
    rewrite <- app_assoc in Ey.
    eapply (@count_sub_unique total_attr body u1 y); [exact HcT|exact Ey|].
    exact Ebody. }
  subst u1. rewrite Ebody in Es. rewrite <- !app_assoc in Es.
  do 6 apply app_inv_head in Es.
  assert (Tc : tag_text c = true).
  { unfold body in Htag. rewrite !tag_text_app in Htag.
    repeat (apply andb_true_iff in Htag as [? Htag]). exact Htag. }
  assert (E : (d1 ++ [dq] ++ u2 ++ failed_attr) ++ (d2 ++ [dq] ++ s1) =
              (N ++ [dq] ++ c) ++ gt :: post)
    by (rewrite <- !app_assoc; symmetry; exact Es).
  apply tag_text_prefix in E as [y Ey].
  2:{ rewrite !tag_text_app, Tu2.
      rewrite (digits_tag_text d1 (digits_forallb d1 Dd1)). reflexivity. }
  assert (Eb2 : body = (a ++ failed_attr ++ M ++ [dq] ++ b ++ total_attr
                          ++ d1 ++ [dq] ++ u2) ++ failed_attr ++ y).
  { rewrite Ebody. rewrite Ey. now rewrite <- !app_assoc. }
  assert (Eb1 : body = a ++ failed_attr ++ (M ++ [dq] ++ b ++ total_attr
                          ++ N ++ [dq] ++ c)) by reflexivity.
  pose proof (@count_sub_unique failed_attr body _ _ _ _ HcF Eb1 Eb2) as Eq.
  apply (f_equal (@length _)) in Eq. rewrite !length_app in Eq.
  cbn [length] in Eq. unfold failed_attr in Eq. rewrite length_app in Eq.
  cbn in Eq. lia.
Qed.

Lemma totalsStage_appended (xml : jsstring) :
  appended (totalsStage xml) =
  match js_match re_total xml with
  | Some t => totals_line (group 1 t) (group 2 t)
  | None => []
  end.
Proof. unfold totalsStage. now destruct (js_match re_total xml). Qed.

Lemma summary_of_read w resultsPath logPath child xml :
  readFile w resultsPath = Returned xml ->
  summarize w resultsPath logPath child [] =
  let text :=
    appended (headerStage xml) ++ appended (totalsStage xml) ++
    (appended (failedCasesStage xml) ++ appended (failureDetailStage xml) ++
     footer_text logPath (reported_code child) ++
     stream_section (str "[stdout tail]") (stdoutBuf child) ++
     stream_section (str "[stderr tail]") (stderrBuf child) ++
     grep_text (reported_code child) (readFile w logPath)) in
  (Returned {| summary := text; exitCode := reported_code child |}, text).
Proof.
  intros Hr. rewrite summarize_run, before_grep_eq, Hr.
  cbn [results_text]. unfold parsed_text. cbv zeta.
  now rewrite <- !app_assoc.
Qed.

(** C5 (amended).  The totals pattern wants the total attribute before the
    failed attribute.  When the first [<test-run] of the document opens a
    tag that holds, after at least one code unit, the total attribute with
    digits [N] and, at least one code unit later, the failed attribute with
    digits [M], each occurring once in the tag, the totals stage appends
    the line [Total: N, Failed: M] and the summary contains it.  When the
    only [<test-run] tag of the document holds its only failed attribute
    before its only total attribute, the stage appends nothing. *)
Theorem C5_totals_line_needs_total_before_failed
        (w : World) (resultsPath logPath : jsstring) (child : Process)
        (pre a N b M c post : jsstring) :
  (let body := a ++ total_attr ++ N ++ [dq] ++ b ++ failed_attr ++ M ++ [dq] ++ c in
   let xml := pre ++ run_tag ++ body ++ gt :: post in
   count_sub (pre ++ run_tag) run_tag = 1 ->
   a <> [] -> b <> [] -> digits N = true -> digits M = true ->
   tag_text body = true ->
   count_sub body total_attr = 1 -> count_sub body failed_attr = 1 ->
   appended (totalsStage xml) = totals_line N M
   /\ (readFile w resultsPath = Returned xml ->
       exists before after,
         fst (summarize w resultsPath logPath child []) =
         Returned {| summary := before ++ totals_line N M ++ after;
                     exitCode := reported_code child |}))
  /\
  (let body := a ++ failed_attr ++ M ++ [dq] ++ b ++ total_attr ++ N ++ [dq] ++ c in
   let xml := pre ++ run_tag ++ body ++ gt :: post in
   count_sub xml run_tag = 1 ->
   tag_text body = true ->
   count_sub body total_attr = 1 -> count_sub body failed_attr = 1 ->
   appended (totalsStage xml) = []).
Proof.
  split.
  - intros body xml Hpre Ha Hb HN HM Htag HcT HcF.
    assert (Happ : appended (totalsStage xml) = totals_line N M).
    { rewrite totalsStage_appended. unfold xml.
      rewrite (@js_match_skip run_tag re_total pre (body ++ gt :: post) re_total_begins Hpre).
      destruct (@exec_at_re_total a N b M c post Ha Hb HN HM Htag HcT HcF)
        as (m0 & rest & Hx).
      fold body in Hx. now rewrite (@js_match_here _ _ _ _ Hx). }
    split; [exact Happ|].
    intros Hread. rewrite (@summary_of_read w resultsPath logPath child xml Hread). cbv zeta. cbn [fst].
    rewrite Happ. eauto.
  - intros body xml Hone Htag HcT HcF.
    rewrite totalsStage_appended. unfold xml.
    rewrite (@js_match_only run_tag re_total pre (body ++ gt :: post) re_total_begins); [|discriminate|exact Hone].
    pose proof (@exec_at_re_total_reversed a N b M c post Htag HcT HcF) as Hx.
    fold body in Hx. now rewrite Hx.
Qed.

(** C5 at a header tag in the order of the pattern, and at the same tag
    with the two attributes exchanged. *)
Lemma C5_totals_line_needs_total_before_failed_witness :
  let pre := quoted "<?xml version='1.0'?>" in
  let a := quoted " id='2' result='Failed(Child)' " in
  let b := quoted " passed='3' " in
  let c := quoted " skipped='0'" in
  let post := str "</test-run>" in
  let good := pre ++ quoted "<test-run id='2' result='Failed(Child)' total='5' passed='3' failed='2' skipped='0'></test-run>" in
  let bad := pre ++ quoted "<test-run id='2' result='Failed(Child)' failed='2' passed='3' total='5' skipped='0'></test-run>" in
  let child := sample_child [] [] (Some 0%Z) in
  appended (totalsStage good) = str "Total: 5, Failed: 2" ++ nl
  /\ (exists before after,
        fst (summarize (sample_world (Returned good) (Thrown enoent) child)
               (str "/p/results.xml") (str "/p/batch.log") child []) =
        Returned {| summary := before ++ totals_line (str "5") (str "2") ++ after;
                    exitCode := 0 |})
  /\ appended (totalsStage bad) = [].
Proof.
  intros pre a b c post good bad child.
  destruct (C5_totals_line_needs_total_before_failed
              (sample_world (Returned good) (Thrown enoent) child)
              (str "/p/results.xml") (str "/p/batch.log") child
              pre a (str "5") b (str "2") c post) as [Hgood Hbad].
  cbv zeta in Hgood, Hbad.
  destruct Hgood as [Hline Hsum]; try reflexivity; try discriminate.
  split; [exact Hline|]. split.
  - apply Hsum. reflexivity.
  - apply Hbad; reflexivity.
Defined.

(** C5 as stated fails: the header tag carries both numeric attributes,
    failed first, and the summary has no [Total:] line. *)
Lemma C5_counterexample :
  let xml := quoted "<test-run id='2' failed='2' total='5'>" in
  let child := sample_child [] [] (Some 0%Z) in
  let w := sample_world (Returned xml) (Thrown enoent) child in
  js_match re_header xml = Some [xml]
  /\ includes xml (quoted "total='5'") = true
  /\ includes xml (quoted "failed='2'") = true
  /\ appended (totalsStage xml) = []
  /\ match runUnityTests w {| filter := None; platform := None |} with
     | Returned r => includes (summary r) (str "Total:") = false
     | Thrown _ => False
     end.
Proof. vm_compute. repeat split; reflexivity. Qed.

(** *** Global matches come in document order *)

Lemma exec_at_prefix (r : regex) (s : jsstring) (m : match_array) (rest : jsstring) :
  exec_at r s = Some (m, rest) ->
  exists m0 caps t, m = m0 :: caps /\ s = m0 ++ t.
Proof.
  unfold exec_at. destruct (run r s [] _) as [[s' caps]|]; [|discriminate].
  intros [= <- <-]. eexists _, caps, (skipn (length s - length s') s).
  split; [reflexivity|]. now rewrite firstn_skipn.
Qed.

Lemma weave_cons (c : ascii) (g0 : jsstring) (ms gaps : list jsstring) :
  weave (c :: g0) ms gaps = c :: weave g0 ms gaps.
Proof. destruct ms, gaps; reflexivity. Qed.

Lemma scan_all_weave (r : regex) (s : jsstring) :
  forall skip, skip <= length s ->
  exists g0 gaps,
    length gaps = length (scan_all r skip s) /\
    skipn skip s = weave g0 (scan_all r skip s) gaps.
Proof.
  induction s as [|c s IH]; intros skip Hs.
  - cbn [length] in Hs. replace skip with 0 by lia. cbn [scan_all skipn].
    destruct (exec_at r []) as [[m rest]|] eqn:E.
    + destruct (exec_at_prefix _ _ E) as (m0 & caps & t & -> & Et).
      symmetry in Et. apply app_eq_nil in Et as [-> _].
      exists [], [[]]. split; reflexivity.
    + exists [], []. split; reflexivity.
  - destruct skip as [|n]; cbn [scan_all].
    + destruct (exec_at r (c :: s)) as [[m rest]|] eqn:E.
      * destruct (exec_at_prefix _ _ E) as (m0 & caps & t & -> & Et).
        destruct m0 as [|c0 m0]; cbn [length].
        -- destruct (IH 0 ltac:(lia)) as (g0 & gaps & Hl & Hw).
           exists [], ((c :: g0) :: gaps). split; [cbn [length Nat.sub]; lia|].
           cbn [skipn weave app Nat.sub] in *. now rewrite weave_cons, <- Hw.
        -- cbn [app] in Et. injection Et as <- Es.
           replace (S (length m0) - 1) with (length m0) by lia.
           destruct (IH (length m0)) as (g0 & gaps & Hl & Hw).
           { rewrite Es, length_app. lia. }
           exists [], (g0 :: gaps). split; [cbn; lia|].
           cbn [skipn weave app]. rewrite <- Hw, Es.
           rewrite skipn_app, skipn_all, Nat.sub_diag. reflexivity.
      * destruct (IH 0 ltac:(lia)) as (g0 & gaps & Hl & Hw).
        exists (c :: g0), gaps. split; [exact Hl|].
        cbn [skipn] in *. now rewrite weave_cons, <- Hw.
    + cbn [length] in Hs. destruct (IH n ltac:(lia)) as (g0 & gaps & Hl & Hw).
      exists g0, gaps. split; [exact Hl|exact Hw].
Qed.

Lemma js_match_g_in_order (r : regex) (xml : jsstring) :
  in_document_order (or_empty (js_match_g r xml)) xml.
Proof.
  destruct (@scan_all_weave r xml 0 ltac:(lia)) as (g0 & gaps & Hl & Hw).
  unfold js_match_g, or_empty.
  destruct (scan_all r 0 xml) as [|m ms] eqn:E.
  - exists xml, []. split; reflexivity.
  - exists g0, gaps. split; [exact Hl|exact Hw].
Qed.


Lemma generic_block_not_qualifies (f : jsstring) :
  generic_block f = true -> qualifies f = false.
Proof.
  unfold generic_block, qualifies.
  destruct (failure_message f) as [msg|]; [|reflexivity].
  intros ->. apply andb_false_r.
Qed.

(** *** The first occurrence of the name pattern *)

Lemma until_quote_value (v post : jsstring) :
  existsb (chr_eqb dq) v = false -> until_quote (v ++ [dq] ++ post) = Some v.
Proof.
  induction v as [|c v IH]; cbn [app until_quote existsb]; intros Hv.
  - now rewrite chr_eqb_refl.
  - apply orb_false_iff in Hv as [Hc Hv]. unfold chr_eqb in *.
    rewrite Ascii.eqb_sym, Hc. cbn [app] in IH. now rewrite (IH Hv).
Qed.

Lemma name_value_at_none (s : jsstring) :
  startsWith s name_eq_quote = false -> name_value_at s = None.
Proof.
  unfold startsWith, name_value_at.
  now destruct (strip_prefix name_eq_quote s).
Qed.

Lemma first_name_value_unfold (s : jsstring) :
  first_name_value s =
  match name_value_at s with
  | Some v => Some v
  | None => match s with [] => None | _ :: s' => first_name_value s' end
  end.
Proof. now destruct s. Qed.

Lemma first_name_value_first (pre v post : jsstring) :
  count_sub (pre ++ name_eq_quote) name_eq_quote = 1 ->
  existsb (chr_eqb dq) v = false ->
  first_name_value (pre ++ name_eq_quote ++ v ++ [dq] ++ post) = Some v.
Proof.
  intros Hc Hv. induction pre as [|c pre IH].
  - change ([] ++ ?x) with x.
    assert (E : name_value_at (name_eq_quote ++ v ++ [dq] ++ post) = Some v).
    { unfold name_value_at. rewrite strip_prefix_app. now apply until_quote_value. }
    now rewrite first_name_value_unfold, E.
  - rewrite <- !app_comm_cons in *. rewrite count_sub_cons in Hc.
    pose proof (count_sub_ge pre name_eq_quote []) as Hge.
    rewrite app_nil_r in Hge.
    destruct (startsWith (c :: pre ++ name_eq_quote) name_eq_quote) eqn:Hs; [lia|].
    rewrite first_name_value_unfold, name_value_at_none; [apply IH; lia|].
    pose proof (startsWith_long (c :: pre ++ name_eq_quote)
                  (v ++ [dq] ++ post) name_eq_quote) as Hl.
    cbn [length] in Hl. rewrite length_app in Hl. specialize (Hl ltac:(lia)).
    rewrite Hs in Hl. now rewrite <- app_comm_cons, <- app_assoc in Hl.
Qed.

Lemma first_name_value_none (tag : jsstring) :
  count_sub tag name_eq_quote = 0 -> first_name_value tag = None.
Proof.
  induction tag as [|c tag IH]; cbn [count_sub]; intros Hc;
    rewrite first_name_value_unfold.
  - rewrite name_value_at_none; [reflexivity|].
    destruct (startsWith [] name_eq_quote); [lia|reflexivity].
  - rewrite name_value_at_none; [apply IH; lia|].
    destruct (startsWith (c :: tag) name_eq_quote); [lia|reflexivity].
Qed.

(** *** Texts assembled from lines *)

Lemma includes_unfold (s n : jsstring) :
  includes s n =
  startsWith s n || match s with [] => false | _ :: s' => includes s' n end.
Proof. now destruct s. Qed.

Lemma includes_prefix (a b : jsstring) : includes (a ++ b) a = true.
Proof. now rewrite includes_unfold, startsWith_app. Qed.

(** A needle without the separator cannot reach across it. *)
Lemma startsWith_sep (sep : ascii) (n a b : jsstring) :
  existsb (chr_eqb sep) n = false ->
  startsWith (a ++ sep :: b) n = startsWith a n.
Proof.
  unfold startsWith. revert a.
  induction n as [|x n IH]; intros a Hn; [reflexivity|].
  cbn [existsb] in Hn. apply orb_false_iff in Hn as [Hx Hn].
  destruct a as [|c a]; cbn [app strip_prefix].
  - unfold chr_eqb in *. now rewrite Ascii.eqb_sym, Hx.
  - destruct (chr_eqb x c); [now apply IH | reflexivity].
Qed.

Lemma includes_sep (sep : ascii) (n a b : jsstring) :
  existsb (chr_eqb sep) n = false ->
  includes (a ++ sep :: b) n = includes a n || includes b n.
Proof.
  intros Hn. induction a as [|c a IH].
  - rewrite (includes_unfold ([] ++ sep :: b)), (includes_unfold []).
    rewrite (startsWith_sep sep n [] b Hn). cbn [app]. now rewrite orb_false_r.
  - rewrite (includes_unfold ((c :: a) ++ sep :: b)),
      (includes_unfold (c :: a)).
    rewrite (startsWith_sep sep n (c :: a) b Hn). cbn [app].
    now rewrite IH, orb_assoc.
Qed.

Lemma includes_join (n : jsstring) (pieces : list jsstring) :
  existsb (chr_eqb lf) n = false ->
  pieces <> [] ->
  forallb (fun p => negb (includes p n)) pieces = true ->
  includes (join nl pieces) n = false.
Proof.
  intros Hn. induction pieces as [|p l IH]; [easy|]. intros _ Hall.
  cbn [forallb] in Hall. apply andb_true_iff in Hall as [Hp Hl].
  apply negb_true_iff in Hp. destruct l as [|q l]; [exact Hp|].
  change (join nl (p :: q :: l)) with (p ++ lf :: join nl (q :: l)).
  rewrite (includes_sep lf n p _ Hn), Hp, IH; [reflexivity|discriminate|exact Hl].
Qed.

(** A needle whose first code unit does not occur in a prefix cannot start
    inside it. *)
Lemma includes_after (x : ascii) (n p s : jsstring) :
  existsb (chr_eqb x) p = false ->
  includes (p ++ s) (x :: n) = includes s (x :: n).
Proof.
  intros Hp. induction p as [|c p IH]; [reflexivity|].
  cbn [existsb] in Hp. apply orb_false_iff in Hp as [Hc Hp].
  rewrite <- app_comm_cons, includes_unfold, (IH Hp).
  unfold startsWith. cbn [strip_prefix]. now rewrite Hc.
Qed.

Lemma includes_skipn (k : nat) (s n : jsstring) :
  includes s n = false -> includes (skipn k s) n = false.
Proof.
  revert s. induction k as [|k IH]; intros s Hs; [exact Hs|].
  destruct s as [|c s]; [exact Hs|]. cbn [skipn]. apply IH.
  rewrite includes_unfold in Hs. now apply orb_false_iff in Hs.
Qed.

Lemma join_cons_lines (p : jsstring) (l : list jsstring) :
  join nl (p :: l) = p ++ concat (map (fun q => nl ++ q) l).
Proof.
  revert p. induction l as [|q l IH]; intros p.
  - cbn. now rewrite app_nil_r.
  - change (join nl (p :: q :: l)) with (p ++ nl ++ join nl (q :: l)).
    rewrite IH. cbn [map concat]. now rewrite <- !app_assoc.
Qed.

Lemma join_lines_app (p : jsstring) (l1 l2 : list jsstring) :
  join nl ((p :: l1) ++ l2) =
  join nl (p :: l1) ++ concat (map (fun q => nl ++ q) l2).
Proof.
  rewrite <- app_comm_cons, !join_cons_lines, map_app, concat_app.
  now rewrite <- app_assoc.
Qed.

Lemma stream_section_lines (label text : jsstring) :
  stream_section label text =
  concat (map (fun q => nl ++ q) (section_lines label text)).
Proof.
  unfold stream_section, section_lines. destruct (blank text); [reflexivity|].
  cbn [map concat]. rewrite <- ?app_assoc. now rewrite !app_nil_r.
Qed.

Lemma section_lines_free (n label text : jsstring) :
  includes [] n = false -> includes label n = false -> includes text n = false ->
  forallb (fun p => negb (includes p n)) (section_lines label text) = true.
Proof.
  intros H0 Hl Ht. unfold section_lines. destruct (blank text); [reflexivity|].
  cbn [forallb]. rewrite H0, Hl. cbn [negb andb].
  destruct (1000 <? length text).
  - rewrite last_chars_skipn, includes_skipn; [reflexivity|exact Ht].
  - now rewrite Ht.
Qed.

Lemma unread_summary_eq (logPath out err : jsstring) :
  results_notice ++ footer_text logPath 0 ++
  stream_section (str "[stdout tail]") out ++
  stream_section (str "[stderr tail]") err =
  join nl (unread_summary_lines logPath out err).
Proof.
  unfold unread_summary_lines.
  rewrite join_lines_app, map_app, concat_app.
  rewrite <- !stream_section_lines.
  unfold results_notice, footer_text. cbn [join].
  change (show_Z 0) with (str "0").
  change (str "Exit code: 0") with (str "Exit code: " ++ str "0").
  now rewrite <- !app_assoc.
Qed.

(** C6.  When the results document cannot be read, the results stage
    appends the fixed notice and nothing else: the summary is the notice
    followed at once by the footer, the stream tails and the log-grep
    section, so the header, totals, failed-case and failure-detail stages
    leave no trace.  For exit code 0 the summary contains the notice and,
    as long as the log path and the captured streams that it echoes do not
    themselves hold the text [Total:], no [Total:] at all. *)
Theorem C6_unreadable_results_skip_stages
        (w : World) (resultsPath logPath : jsstring) (child : Process)
        (e : js_error) :
  readFile w resultsPath = Thrown e ->
  appended (resultsStage w resultsPath) = results_notice
  /\ fst (summarize w resultsPath logPath child []) =
     Returned {| summary :=
                   results_notice ++
                   footer_text logPath (reported_code child) ++
                   stream_section (str "[stdout tail]") (stdoutBuf child) ++
                   stream_section (str "[stderr tail]") (stderrBuf child) ++
                   grep_text (reported_code child) (readFile w logPath);
                 exitCode := reported_code child |}
  /\ (reported_code child = 0%Z ->
      exists text,
        fst (summarize w resultsPath logPath child []) =
          Returned {| summary := text; exitCode := 0 |}
        /\ includes text results_notice = true
        /\ (includes logPath (str "Total:") = false ->
            includes (stdoutBuf child) (str "Total:") = false ->
            includes (stderrBuf child) (str "Total:") = false ->
            includes text (str "Total:") = false)).
Proof.
  intros Hread.
  assert (Hres : appended (resultsStage w resultsPath) = results_notice)
    by (unfold appended; now rewrite resultsStage_run, Hread).
  assert (Hsum : fst (summarize w resultsPath logPath child []) =
     Returned {| summary :=
                   results_notice ++
                   footer_text logPath (reported_code child) ++
                   stream_section (str "[stdout tail]") (stdoutBuf child) ++
                   stream_section (str "[stderr tail]") (stderrBuf child) ++
                   grep_text (reported_code child) (readFile w logPath);
                 exitCode := reported_code child |}).
  { rewrite summarize_run, before_grep_eq, Hread. cbv zeta. cbn [fst results_text].
    now rewrite <- !app_assoc. }
  split; [exact Hres|]. split; [exact Hsum|].
  intros Hzero. rewrite Hsum, Hzero. eexists. split; [reflexivity|].
  split; [apply includes_prefix|].
  intros Hlog Hout Herr. unfold grep_text. cbn [Z.eqb]. rewrite app_nil_r.
  rewrite unread_summary_eq. apply includes_join;
    [reflexivity | discriminate |].
  unfold unread_summary_lines. rewrite !forallb_app.
  rewrite !section_lines_free by (reflexivity || assumption).
  pose proof (@includes_after "T"%char (str "otal:") (str "Log: ") logPath eq_refl)
    as Hafter.
  change ("T"%char :: str "otal:") with (str "Total:") in Hafter.
  cbn [forallb]. rewrite Hafter, Hlog. reflexivity.
Qed.

(** C6 at a run with exit code 0, no results document and a captured
    standard output. *)
Lemma C6_unreadable_results_skip_stages_witness :
  let child := sample_child (str "Tests started") [] (Some 0%Z) in
  let w := sample_world (Thrown enoent) (Returned (str "Total: 3 errors")) child in
  fst (summarize w (str "/p/results.xml") (str "/p/batch.log") child []) =
    Returned {| summary :=
                  results_notice ++ nl ++ str "Log: /p/batch.log" ++ nl ++
                  str "Exit code: 0" ++ nl ++ nl ++ str "[stdout tail]" ++ nl ++
                  str "Tests started";
                exitCode := 0 |}
  /\ exists text,
       fst (summarize w (str "/p/results.xml") (str "/p/batch.log") child []) =
         Returned {| summary := text; exitCode := 0 |}
       /\ includes text results_notice = true
       /\ includes text (str "Total:") = false.
Proof.
  intros child w.
  destruct (@C6_unreadable_results_skip_stages
              w (str "/p/results.xml") (str "/p/batch.log") child enoent eq_refl)
    as (_ & Hsum & Hzero).
  split; [rewrite Hsum; vm_compute; reflexivity|].
  destruct (Hzero eq_refl) as (text & Ht & Hnotice & Hfree).
  exists text. split; [exact Ht|]. split; [exact Hnotice|].
  apply Hfree; vm_compute; reflexivity.
Defined.

(** *** The readings of the failed-case pattern *)

(** Two runs of a class that stop at the same separator are equal. *)
Lemma split_at_sep_inv (p : ascii -> bool) (sep : ascii) (d1 d2 x y : jsstring) :
  p sep = false ->
  forallb p d1 = true -> forallb p d2 = true ->
  d1 ++ sep :: x = d2 ++ sep :: y -> d1 = d2 /\ x = y.
Proof.
  intros Hsep. revert d2.
  induction d1 as [|c d1 IH]; intros [|c' d2] H1 H2 E; cbn [app] in E.
  - now injection E as ->.
  - injection E as <- _. cbn [forallb] in H2. now rewrite Hsep in H2.
  - injection E as -> _. cbn [forallb] in H1. now rewrite Hsep in H1.
  - injection E as -> E. cbn [forallb] in H1, H2.
    apply andb_true_iff in H1 as [_ H1]. apply andb_true_iff in H2 as [_ H2].
    destruct (IH d2 H1 H2 E) as [-> ->]. now split.
Qed.

Lemma not_chr_self (c : ascii) : not_chr c c = false.
Proof. unfold not_chr. now rewrite chr_eqb_refl. Qed.

Lemma derives_re_failed_case (s s' : jsstring) (caps : list jsstring) :
  derives re_failed_case s [] s' caps ->
  exists u1 u2,
    s = case_tag ++ u1 ++ result_failed ++ u2 ++ [gt] ++ s'
    /\ caps = [] /\ tag_text u1 = true /\ tag_text u2 = true.
Proof.
  unfold re_failed_case. intros H. invert_derives.
  match goal with
  | Hu : forallb (not_chr gt) ?u = true, Hv : forallb (not_chr gt) ?v = true
    |- context [?u ++ _ ++ ?v ++ _] => exists u, v
  end.
  repeat split; assumption.
Qed.

Lemma derives_star_seq p u r s caps s' caps' :
  forallb p u = true ->
  derives r s caps s' caps' -> derives (Star p +++ r) (u ++ s) caps s' caps'.
Proof. intros Hp H. econstructor; [now constructor | exact H]. Qed.

Lemma tag_text_result_failed : tag_text result_failed = true.
Proof. reflexivity. Qed.

(** At a failed test-case tag the pattern matches the tag, whole. *)
Lemma exec_at_failed_case_tag (a b rest : jsstring) :
  tag_text a = true -> tag_text b = true ->
  exec_at re_failed_case (failed_case_tag a b ++ rest) =
  Some ([failed_case_tag a b], rest).
Proof.
  intros Ta Tb. set (s := failed_case_tag a b ++ rest).
  assert (Es : s = case_tag ++ a ++ result_failed ++ b ++ [gt] ++ rest)
    by (unfold s, failed_case_tag; now rewrite <- !app_assoc).
  assert (Hd : derives re_failed_case s [] rest []).
  { rewrite Es. unfold re_failed_case.
    apply derives_lit_seq, derives_star_seq; [exact Ta|].
    apply derives_lit_seq, derives_star_seq; [exact Tb|]. constructor. }
  destruct (run_complete Hd (fun s' caps => Some (s', caps)) eq_refl)
    as [[s' caps] Hrun].
  destruct (run_sound _ _ _ _ Hrun) as (s1 & caps1 & Hd1 & [= <- <-]).
  apply derives_re_failed_case in Hd1 as (u1 & u2 & Es1 & -> & Tu1 & Tu2).
  unfold exec_at. rewrite Hrun.
  rewrite Es in Es1. apply app_inv_head in Es1.
  assert (E : (a ++ result_failed ++ b) ++ gt :: rest =
              (u1 ++ result_failed ++ u2) ++ gt :: s1)
    by (rewrite <- !app_assoc; exact Es1).
  apply (split_at_sep_inv (not_chr gt) gt) in E as [_ <-];
    [|apply not_chr_self| |].
  - unfold s at 1 2. now rewrite firstn_app_diff.
  - fold (tag_text (a ++ result_failed ++ b)).
    now rewrite !tag_text_app, Ta, Tb.
  - fold (tag_text (u1 ++ result_failed ++ u2)).
    now rewrite !tag_text_app, Tu1, Tu2.
Qed.

Lemma re_failed_case_begins : begins_with re_failed_case case_tag.
Proof. apply begins_with_lit. Qed.

Lemma take_drop_while (p : ascii -> bool) (s : jsstring) :
  s = take_while p s ++ drop_while p s.
Proof.
  induction s as [|c s IH]; [reflexivity|]. cbn [take_while drop_while].
  destruct (p c); [cbn [app]; now f_equal | reflexivity].
Qed.

Lemma take_while_all (p : ascii -> bool) (s : jsstring) :
  forallb p (take_while p s) = true.
Proof.
  induction s as [|c s IH]; [reflexivity|]. cbn [take_while].
  destruct (p c) eqn:E; [cbn [forallb]; now rewrite E | reflexivity].
Qed.

Lemma includes_cons (c : ascii) (s n : jsstring) :
  includes s n = true -> includes (c :: s) n = true.
Proof. intros H. rewrite includes_unfold, H. apply orb_true_r. Qed.

Lemma includes_middle (x w y : jsstring) : includes (x ++ w ++ y) w = true.
Proof.
  induction x as [|c x IH]; cbn [app]; [apply includes_prefix|].
  now apply includes_cons.
Qed.

(** Where a closed tag without [result=Failed] starts, the pattern has no
    reading, whatever follows the tag. *)
Lemma exec_at_unfailed (r x : jsstring) :
  closes_unfailed r = true ->
  exec_at re_failed_case (case_tag ++ r ++ x) = None.
Proof.
  unfold closes_unfailed. intros Hc. unfold exec_at.
  destruct (run re_failed_case _ [] _) as [[s0 caps0]|] eqn:Hrun;
    [exfalso|reflexivity].
  destruct (run_sound _ _ _ _ Hrun) as (s1 & caps1 & Hd & _).
  apply derives_re_failed_case in Hd as (u1 & u2 & Es & _ & Tu1 & Tu2).
  apply app_inv_head in Es.
  destruct (drop_while (not_chr gt) r) as [|d z] eqn:D; [discriminate|].
  apply drop_while_head in D as Hd. unfold not_chr in Hd.
  apply negb_false_iff, chr_eqb_eq in Hd. subst d.
  rewrite (take_drop_while (not_chr gt) r), D in Es.
  assert (E : take_while (not_chr gt) r ++ gt :: (z ++ x) =
              (u1 ++ result_failed ++ u2) ++ gt :: s1)
    by (rewrite <- !app_assoc in *; exact Es).
  apply (split_at_sep_inv (not_chr gt) gt) in E as [E _];
    [|apply not_chr_self|apply take_while_all|].
  - rewrite E, includes_middle in Hc. discriminate.
  - fold (tag_text (u1 ++ result_failed ++ u2)).
    now rewrite !tag_text_app, Tu1, Tu2.
Qed.

(** *** The failed-case scan of a document built from tags *)

Lemma startsWith_cons (c x : ascii) (s n : jsstring) :
  startsWith (c :: s) (x :: n) = chr_eqb x c && startsWith s n.
Proof. unfold startsWith. cbn [strip_prefix]. now destruct (chr_eqb x c). Qed.

(** A literal whose first code unit does not come back later cannot start
    inside a text and end in a following text that starts with it. *)
Lemma startsWith_before (lt : ascii) (w g x : jsstring) :
  g <> [] -> existsb (chr_eqb lt) w = false ->
  x = [] \/ (exists z, x = lt :: z) ->
  startsWith (g ++ x) (lt :: w) = startsWith g (lt :: w).
Proof.
  intros Hg Hw [-> | [z ->]]; [now rewrite app_nil_r|].
  destruct g as [|c t]; [easy|]. cbn [app].
  now rewrite !startsWith_cons, (startsWith_sep lt w t z Hw).
Qed.

Lemma exec_at_gap (g x : jsstring) :
  g <> [] -> no_failed_case g = true ->
  x = [] \/ (exists z, x = "<"%char :: z) ->
  exec_at re_failed_case (g ++ x) = None.
Proof.
  intros Hg Hok Hx. destruct g as [|c t]; [easy|].
  cbn [no_failed_case] in Hok. apply andb_true_iff in Hok as [Hhere _].
  destruct (strip_prefix case_tag (c :: t)) as [r|] eqn:E.
  - apply strip_prefix_Some in E. rewrite E, <- app_assoc.
    now apply exec_at_unfailed.
  - apply re_failed_case_begins.
    change case_tag with ("<"%char :: str "test-case").
    rewrite startsWith_before; [|discriminate|reflexivity|exact Hx].
    unfold startsWith. change ("<"%char :: str "test-case") with case_tag.
    now rewrite E.
Qed.

Lemma scan_all_gap (g x : jsstring) :
  no_failed_case g = true ->
  x = [] \/ (exists z, x = "<"%char :: z) ->
  scan_all re_failed_case 0 (g ++ x) = scan_all re_failed_case 0 x.
Proof.
  intros Hok Hx. induction g as [|c g IH]; [reflexivity|].
  pose proof (@exec_at_gap (c :: g) x ltac:(discriminate) Hok Hx) as Hnone.
  cbn [app] in *. cbn [scan_all]. rewrite Hnone. apply IH.
  cbn [no_failed_case] in Hok. now apply andb_true_iff in Hok.
Qed.

Lemma scan_all_skip (r : regex) (u s : jsstring) :
  scan_all r (length u) (u ++ s) = scan_all r 0 s.
Proof. induction u as [|c u IH]; [reflexivity|exact IH]. Qed.

Lemma scan_all_failed_case_tag (a b rest : jsstring) :
  tag_text a = true -> tag_text b = true ->
  scan_all re_failed_case 0 (failed_case_tag a b ++ rest) =
  failed_case_tag a b :: scan_all re_failed_case 0 rest.
Proof.
  intros Ta Tb. pose proof (exec_at_failed_case_tag a b rest Ta Tb) as Hx.
  set (t := str "test-case" ++ a ++ result_failed ++ b ++ [gt]).
  assert (Et : failed_case_tag a b = "<"%char :: t) by reflexivity.
  rewrite Et in *. cbn [app] in *. cbn [scan_all]. rewrite Hx.
  replace (length ("<"%char :: t) - 1) with (length t) by (cbn [length]; lia).
  now rewrite scan_all_skip.
Qed.

Lemma scan_all_tags (parts : list (jsstring * jsstring)) :
  forall (gaps : list jsstring) (g0 : jsstring),
    length gaps = length parts ->
    forallb (fun ab => tag_text (fst ab) && tag_text (snd ab)) parts = true ->
    forallb no_failed_case (g0 :: gaps) = true ->
    scan_all re_failed_case 0
      (weave g0 (map (fun ab => failed_case_tag (fst ab) (snd ab)) parts) gaps) =
    map (fun ab => failed_case_tag (fst ab) (snd ab)) parts.
Proof.
  induction parts as [|[a b] parts IH]; intros gaps g0 Hlen Hparts Hgaps;
    cbn [forallb] in Hgaps; apply andb_true_iff in Hgaps as [Hg0 Hgaps].
  - cbn [map weave]. rewrite <- (app_nil_r g0).
    rewrite scan_all_gap; [|exact Hg0|now left].
    cbn [scan_all]. now rewrite (re_failed_case_begins [] eq_refl).
  - destruct gaps as [|g gaps]; [discriminate|].
    cbn [map weave fst snd forallb] in *.
    apply andb_true_iff in Hparts as [Hab Hparts].
    apply andb_true_iff in Hab as [Ta Tb].
    rewrite scan_all_gap; [|exact Hg0|right; eexists; reflexivity].
    rewrite scan_all_failed_case_tag by assumption. f_equal.
    apply IH; [now injection Hlen | exact Hparts | exact Hgaps].
Qed.

Lemma dash_lines_of_names (tags : list jsstring) :
  concat (map dash_line tags) =
  concat (map (fun v => str "  - " ++ v ++ nl) (listed_names tags)).
Proof.
  induction tags as [|t tags IH]; [reflexivity|].
  cbn [map concat listed_names flat_map]. fold (listed_names tags).
  unfold dash_line at 1. rewrite IH.
  destruct (first_name_value t); cbn [app map concat];
    [now rewrite <- !app_assoc | reflexivity].
Qed.

Lemma listed_names_le (tags : list jsstring) :
  length (listed_names tags) <= length tags.
Proof.
  induction tags as [|t tags IH]; [cbn; lia|].
  cbn [listed_names flat_map]. fold (listed_names tags).
  rewrite length_app. destruct (first_name_value t); cbn [length]; lia.
Qed.

Lemma listed_names_all (tags : list jsstring) :
  forallb has_name tags = true -> length (listed_names tags) = length tags.
Proof.
  induction tags as [|t tags IH]; [reflexivity|].
  cbn [forallb listed_names flat_map]. fold (listed_names tags).
  intros [Ht Hall]%andb_true_iff. rewrite length_app, (IH Hall).
  unfold has_name in Ht. now destruct (first_name_value t).
Qed.

(** C3 as stated fails: one failed test-case tag, counted in the header,
    and no case name listed. *)
Lemma C3_counterexample :
  let xml := quoted "<test-suite><test-case id='4' result='Failed'></test-case></test-suite>" in
  let child := sample_child [] [] (Some 0%Z) in
  let w := sample_world (Returned xml) (Thrown enoent) child in
  failed_case_tags xml = [quoted "<test-case id='4' result='Failed'>"]
  /\ listed_names (failed_case_tags xml) = []
  /\ appended (failedCasesStage xml) = str "Failed cases (1):" ++ nl
  /\ match runUnityTests w {| filter := None; platform := None |} with
     | Returned r =>
         includes (summary r) (str "Failed cases (1):") = true
         /\ includes (summary r) (str "  - ") = false
     | Thrown _ => False
     end.
Proof. vm_compute. repeat split; reflexivity. Qed.

(** ** Two complete runs *)

(** A failing run: two failed cases, the first failure block generic, a log
    with two matching lines. *)
Example run_of_a_failing_suite :
  let xml :=
    quoted "<?xml version='1.0'?><test-run id='2' result='Failed(Child)' total='5' passed='3' failed='2'><test-suite result='Failed'><failure><message><![CDATA[One or more child tests had errors]]></message></failure><test-case id='7' name='Adds' fullname='Calc.Adds' result='Passed'/><test-case id='8' name='Divides' fullname='Calc.Divides' result='Failed'><failure><message><![CDATA[ Expected 2 but was 3 ]]></message><stack-trace><![CDATA[at Calc.Divides () ]]></stack-trace></failure></test-case><test-case id='9' fullname='Calc.Roots' name='Roots' result='Failed'><failure><message><![CDATA[NaN]]></message></failure></test-case></test-suite></test-run>" in
  let log := str "Loading project" ++ [cr; lf] ++ str "Compile Error CS0103" ++ nl ++
             str "Saving results" ++ nl ++ str "2 ERRORS" in
  let child := sample_child (str "  ") (str "Aborted") (Some 2%Z) in
  runUnityTests (sample_world (Returned xml) (Returned log) child)
                {| filter := None; platform := None |} =
  Returned
    {| summary :=
         quoted "<test-run id='2' result='Failed(Child)' total='5' passed='3' failed='2'>" ++ nl ++
         str "Total: 5, Failed: 2" ++ nl ++
         str "Failed cases (2):" ++ nl ++
         str "  - Divides" ++ nl ++
         str "  - Calc.Roots" ++ nl ++
         nl ++ str "Failure message: Expected 2 but was 3" ++ nl ++
         str "Stack: at Calc.Divides ()" ++ nl ++
         nl ++ str "Log: /p/batch.log" ++
         nl ++ str "Exit code: 2" ++
         nl ++ nl ++ str "[stderr tail]" ++ nl ++ str "Aborted" ++
         nl ++ nl ++ str "[log grep -i 'error' (2/2 matches)]" ++ nl ++
         str "Compile Error CS0103" ++ nl ++ str "2 ERRORS";
       exitCode := 2 |}.
Proof. vm_compute. reflexivity. Qed.

(** Without a configured editor path the call throws before anything is
    spawned or read. *)
Example run_without_configuration :
  let w := {| env := fun _ => None; argv := [str "node"; str "index.js"];
              path_resolve := fun a b => a ++ str "/" ++ b;
              spawn := fun _ _ => sample_child [] [] (Some 0%Z);
              readFile := fun _ => Thrown enoent |} in
  runUnityTests w {| filter := None; platform := None |} =
  Thrown (Error (str "Missing Unity editor path. Provide via --unity-editor or UNITY_EDITOR_PATH.")).
Proof. reflexivity. Qed.

(** * Further properties of the code *)

Unset Implicit Arguments.

(** ** Startup configuration *)

Lemma str_eqb_refl (a : jsstring) : str_eqb a a = true.
Proof. now apply str_eqb_eq. Qed.

Lemma findIndex_first {A} (p : A -> bool) (pre : list A) (x : A) (post : list A) :
  forallb (fun a => negb (p a)) pre = true -> p x = true ->
  findIndex p (pre ++ x :: post) = Some (length pre).
Proof.
  intros Hpre Hx. induction pre as [|a pre IH]; cbn [app findIndex length].
  - now rewrite Hx.
  - cbn [forallb] in Hpre. apply andb_true_iff in Hpre as [Ha Hpre].
    apply negb_true_iff in Ha. now rewrite Ha, (IH Hpre).
Qed.

Lemma findIndex_none {A} (p : A -> bool) (l : list A) :
  forallb (fun a => negb (p a)) l = true -> findIndex p l = None.
Proof.
  induction l as [|a l IH]; [reflexivity|]. cbn [forallb findIndex].
  intros [Ha Hl]%andb_true_iff. apply negb_true_iff in Ha.
  now rewrite Ha, (IH Hl).
Qed.

Lemma find_first {A} (p : A -> bool) (pre : list A) (x : A) (post : list A) :
  forallb (fun a => negb (p a)) pre = true -> p x = true ->
  find p (pre ++ x :: post) = Some x.
Proof.
  intros Hpre Hx. induction pre as [|a pre IH]; cbn [app find].
  - now rewrite Hx.
  - cbn [forallb] in Hpre. apply andb_true_iff in Hpre as [Ha Hpre].
    apply negb_true_iff in Ha. now rewrite Ha, (IH Hpre).
Qed.

Lemma find_none_forallb {A} (p : A -> bool) (l : list A) :
  forallb (fun a => negb (p a)) l = true -> find p l = None.
Proof.
  induction l as [|a l IH]; [reflexivity|]. cbn [forallb find].
  intros [Ha Hl]%andb_true_iff. apply negb_true_iff in Ha.
  now rewrite Ha, (IH Hl).
Qed.

(** The lookup in [process.env] when the variable is unset or empty. *)
Lemma readStartupArg_no_env (w : World) (flag e : jsstring) :
  truthy_opt (env w e) = false ->
  readStartupArg w flag (Some e) =
  match match findIndex (fun a => str_eqb a flag) (argv w) with
        | Some idx => nth_error (argv w) (idx + 1)
        | None => None
        end with
  | Some v => Some v
  | None =>
      match find (fun a => startsWith a (flag ++ str "=")) (argv w) with
      | Some eq =>
          if truthy eq then Some (slice_from (length (flag ++ str "=")) eq)
          else None
      | None => None
      end
  end.
Proof.
  intros He. unfold readStartupArg.
  destruct (truthy e); [now rewrite He | reflexivity].
Qed.

Lemma readStartupArg_env (w : World) (flag e v : jsstring) :
  truthy e = true -> env w e = Some v -> truthy v = true ->
  readStartupArg w flag (Some e) = Some v.
Proof.
  intros Te He Tv. unfold readStartupArg. rewrite Te, He.
  cbn [truthy_opt]. now rewrite Tv.
Qed.

(** X1.  A non-empty environment variable wins over every command-line
    form: whatever [process.argv] holds, the editor path is the value of
    [UNITY_EDITOR_PATH] and the project path the value of
    [UNITY_PROJECT_PATH]. *)
Theorem X1_environment_overrides_flags (w : World) (v : jsstring) :
  truthy v = true ->
  (env w (str "UNITY_EDITOR_PATH") = Some v -> resolveUnityEditorPath w = Some v)
  /\ (env w (str "UNITY_PROJECT_PATH") = Some v -> resolveUnityProjectPath w = Some v).
Proof.
  intros Hv. split; intros He.
  - unfold resolveUnityEditorPath, or_else.
    rewrite (readStartupArg_env w (str "--unity-editor") (str "UNITY_EDITOR_PATH")
               v eq_refl He Hv).
    cbn [truthy_opt]. now rewrite Hv.
  - unfold resolveUnityProjectPath, or_else.
    rewrite (readStartupArg_env w (str "--project") (str "UNITY_PROJECT_PATH")
               v eq_refl He Hv).
    cbn [truthy_opt]. now rewrite Hv.
Qed.

(** X1 with flags on the command line that name other paths. *)
Lemma X1_environment_overrides_flags_witness :
  let w := {| env := fun e => if str_eqb e (str "UNITY_EDITOR_PATH") then Some (str "/env/Unity")
                              else if str_eqb e (str "UNITY_PROJECT_PATH") then Some (str "/env/Unity")
                              else None;
              argv := [str "node"; str "index.js"; str "--unity-editor"; str "/flag/Unity";
                       str "--project=/flag/project"];
              path_resolve := fun a b => a ++ str "/" ++ b;
              spawn := fun _ _ => sample_child [] [] (Some 0%Z);
              readFile := fun _ => Thrown enoent |} in
  resolveUnityEditorPath w = Some (str "/env/Unity")
  /\ resolveUnityProjectPath w = Some (str "/env/Unity").
Proof.
  intros w.
  destruct (X1_environment_overrides_flags w (str "/env/Unity") eq_refl) as [He Hp].
  split; [apply He | apply Hp]; reflexivity.
Defined.

Lemma readStartupArg_positional
        (w : World) (flag e v : jsstring) (pre post : list jsstring) :
  truthy_opt (env w e) = false ->
  argv w = pre ++ flag :: v :: post ->
  forallb (fun a => negb (str_eqb a flag)) pre = true ->
  readStartupArg w flag (Some e) = Some v.
Proof.
  intros He Hargv Hpre. rewrite (readStartupArg_no_env w flag e He), Hargv.
  rewrite (findIndex_first (fun a => str_eqb a flag) pre flag (v :: post) Hpre
             (str_eqb_refl flag)).
  rewrite nth_error_app2 by lia.
  replace (length pre + 1 - length pre) with 1 by lia. reflexivity.
Qed.

(** X2.  With the environment variable unset or empty, the value of a flag
    is the argument that follows its first occurrence, taken as it is: it
    may be empty or look like another flag, and it wins over a later
    [flag=value] argument. *)
Theorem X2_flag_value_is_next_argument
        (w : World) (flag e v : jsstring) (pre post : list jsstring) :
  truthy_opt (env w e) = false ->
  argv w = pre ++ flag :: v :: post ->
  forallb (fun a => negb (str_eqb a flag)) pre = true ->
  readStartupArg w flag (Some e) = Some v.
Proof. apply readStartupArg_positional. Qed.

(** X2 where the argument after the flag is itself a flag. *)
Lemma X2_flag_value_is_next_argument_witness :
  let w := {| env := fun _ => None;
              argv := [str "node"; str "index.js"; str "--project"; str "--verbose";
                       str "--project=/p"];
              path_resolve := fun a b => a ++ str "/" ++ b;
              spawn := fun _ _ => sample_child [] [] (Some 0%Z);
              readFile := fun _ => Thrown enoent |} in
  readStartupArg w (str "--project") (Some (str "UNITY_PROJECT_PATH")) =
  Some (str "--verbose").
Proof.
  intros w.
  apply (X2_flag_value_is_next_argument w (str "--project") (str "UNITY_PROJECT_PATH")
           (str "--verbose") [str "node"; str "index.js"] [str "--project=/p"]);
    reflexivity.
Defined.

Lemma slice_from_app (a b : jsstring) : slice_from (length a) (a ++ b) = b.
Proof.
  unfold slice_from. now rewrite skipn_app, skipn_all, Nat.sub_diag.
Qed.

(** X3.  With the environment variable unset or empty and no usable
    [flag value] pair (the flag is absent, or its first occurrence is the
    last argument), the value is what follows [flag=] in the first
    argument that starts with it. *)
Theorem X3_flag_equals_value
        (w : World) (flag e v : jsstring) (pre post last : list jsstring) :
  truthy_opt (env w e) = false ->
  argv w = pre ++ (flag ++ str "=" ++ v) :: post ++ last ->
  last = [] \/ last = [flag] ->
  forallb (fun a => negb (str_eqb a flag)) (pre ++ (flag ++ str "=" ++ v) :: post) = true ->
  forallb (fun a => negb (startsWith a (flag ++ str "="))) pre = true ->
  readStartupArg w flag (Some e) = Some v.
Proof.
  intros He Hargv Hlast Hnone Hpre.
  rewrite (readStartupArg_no_env w flag e He), Hargv.
  assert (Hpos : match findIndex (fun a => str_eqb a flag)
                         (pre ++ (flag ++ str "=" ++ v) :: post ++ last) with
                 | Some idx =>
                     nth_error (pre ++ (flag ++ str "=" ++ v) :: post ++ last) (idx + 1)
                 | None => None
                 end = None).
  { change (pre ++ (flag ++ str "=" ++ v) :: post ++ last)
      with (pre ++ ((flag ++ str "=" ++ v) :: post) ++ last).
    rewrite app_assoc. destruct Hlast as [-> | ->].
    - rewrite app_nil_r, findIndex_none; [reflexivity|exact Hnone].
    - pose proof (findIndex_first (fun a => str_eqb a flag)
                    (pre ++ (flag ++ str "=" ++ v) :: post) flag [] Hnone
                    (str_eqb_refl flag)) as Hf.
      unfold jsstring in *. rewrite Hf.
      apply nth_error_None. rewrite length_app. cbn [length]. lia. }
  rewrite Hpos.
  pose proof (find_first (fun a => startsWith a (flag ++ str "=")) pre
                (flag ++ str "=" ++ v) (post ++ last) Hpre) as Hfind.
  unfold jsstring in *. rewrite Hfind.
  - assert (Ht : truthy (flag ++ str "=" ++ v) = true)
      by (destruct flag; reflexivity).
    rewrite Ht. f_equal. rewrite (app_assoc flag), length_app.
    rewrite <- length_app. apply slice_from_app.
  - rewrite (app_assoc flag). apply startsWith_app.
Qed.

(** X3 for a project path given as [--project=/p] before a dangling
    [--project]. *)
Lemma X3_flag_equals_value_witness :
  let w := {| env := fun _ => Some [];
              argv := [str "node"; str "--project=/p"; str "--x"; str "--project"];
              path_resolve := fun a b => a ++ str "/" ++ b;
              spawn := fun _ _ => sample_child [] [] (Some 0%Z);
              readFile := fun _ => Thrown enoent |} in
  readStartupArg w (str "--project") (Some (str "UNITY_PROJECT_PATH")) = Some (str "/p").
Proof.
  intros w.
  apply (X3_flag_equals_value w (str "--project") (str "UNITY_PROJECT_PATH") (str "/p")
           [str "node"] [str "--x"] [str "--project"]);
    try reflexivity. now right.
Defined.

Lemma flag_absent_split (f : jsstring) (args : list jsstring) :
  flag_absent f args = true ->
  forallb (fun a => negb (str_eqb a f)) args = true
  /\ forallb (fun a => negb (startsWith a (f ++ str "="))) args = true.
Proof.
  unfold flag_absent. induction args as [|a args IH]; [now split|].
  cbn [forallb]. intros [Ha Hargs]%andb_true_iff.
  apply andb_true_iff in Ha as [H1 H2]. destruct (IH Hargs) as [I1 I2].
  now rewrite H1, H2, I1, I2.
Qed.

Lemma startsWith_longer (s w : jsstring) :
  length s < length w -> startsWith s w = false.
Proof.
  unfold startsWith. revert s. induction w as [|x w IH]; intros s L.
  - cbn in L. lia.
  - destruct s as [|c s]; [reflexivity|]. cbn [strip_prefix].
    destruct (chr_eqb x c); [|reflexivity]. apply IH. cbn in L. lia.
Qed.

Lemma readStartupArg_none
        (w : World) (flag e : jsstring) (pre last : list jsstring) :
  truthy_opt (env w e) = false ->
  argv w = pre ++ last ->
  last = [] \/ last = [flag] ->
  flag_absent flag pre = true ->
  readStartupArg w flag (Some e) = None.
Proof.
  intros He Hargv Hlast Habs.
  destruct (flag_absent_split flag pre Habs) as [Hne Hnp].
  rewrite (readStartupArg_no_env w flag e He), Hargv.
  destruct Hlast as [-> | ->].
  - rewrite app_nil_r, (findIndex_none _ pre Hne), (find_none_forallb _ pre Hnp).
    reflexivity.
  - rewrite (findIndex_first (fun a => str_eqb a flag) pre flag [] Hne
               (str_eqb_refl flag)).
    assert (Hn : nth_error (pre ++ [flag]) (length pre + 1) = None)
      by (apply nth_error_None; rewrite length_app; cbn [length]; lia).
    rewrite Hn, find_none_forallb; [reflexivity|].
    rewrite forallb_app, Hnp. cbn [forallb].
    rewrite startsWith_longer; [reflexivity|].
    rewrite length_app. change (length (str "=")) with 1. lia.
Qed.

(** X4.  With the environment variable unset or empty, a flag that is
    absent from the command line, or that only ends it with no value
    after it, gives no value. *)
Theorem X4_flag_without_value_is_undefined
        (w : World) (flag e : jsstring) (pre last : list jsstring) :
  truthy_opt (env w e) = false ->
  argv w = pre ++ last ->
  last = [] \/ last = [flag] ->
  flag_absent flag pre = true ->
  readStartupArg w flag (Some e) = None.
Proof. apply readStartupArg_none. Qed.

(** X4 for a command line that ends with the flag. *)
Lemma X4_flag_without_value_is_undefined_witness :
  let w := {| env := fun _ => None;
              argv := [str "node"; str "index.js"; str "--project"];
              path_resolve := fun a b => a ++ str "/" ++ b;
              spawn := fun _ _ => sample_child [] [] (Some 0%Z);
              readFile := fun _ => Thrown enoent |} in
  readStartupArg w (str "--project") (Some (str "UNITY_PROJECT_PATH")) = None.
Proof.
  intros w.
  apply (X4_flag_without_value_is_undefined w (str "--project")
           (str "UNITY_PROJECT_PATH") [str "node"; str "index.js"] [str "--project"]);
    try reflexivity. now right.
Defined.

Lemma readStartupArg_absent (w : World) (flag e : jsstring) :
  truthy_opt (env w e) = false -> flag_absent flag (argv w) = true ->
  readStartupArg w flag (Some e) = None.
Proof.
  intros He Habs.
  apply (readStartupArg_none w flag e (argv w) []);
    [exact He | now rewrite app_nil_r | now left | exact Habs].
Qed.

(** X5.  [runUnityTests] refuses to run without its two paths: with no
    editor path in the environment or on the command line it throws the
    editor message, whatever the project configuration is; with an editor
    path and no project path it throws the project message. *)
Theorem X5_missing_configuration_is_reported (w : World) (params : RunUnityTestsParams) :
  (truthy_opt (env w (str "UNITY_EDITOR_PATH")) = false ->
   flag_absent (str "--unity-editor") (argv w) = true ->
   flag_absent (str "--unityEditor") (argv w) = true ->
   runUnityTests w params =
   Thrown (Error (str "Missing Unity editor path. Provide via --unity-editor or UNITY_EDITOR_PATH.")))
  /\ (truthy_opt (resolveUnityEditorPath w) = true ->
      truthy_opt (env w (str "UNITY_PROJECT_PATH")) = false ->
      flag_absent (str "--project") (argv w) = true ->
      flag_absent (str "--projectPath") (argv w) = true ->
      runUnityTests w params =
      Thrown (Error (str "Missing Unity project path. Provide via --project or UNITY_PROJECT_PATH."))).
Proof.
  split.
  - intros He H1 H2. unfold runUnityTests, resolveUnityEditorPath.
    rewrite !readStartupArg_absent by assumption. reflexivity.
  - intros Hed He H1 H2. unfold runUnityTests.
    rewrite Hed. destruct (resolveUnityEditorPath w) as [ed|]; [|discriminate].
    unfold resolveUnityProjectPath.
    rewrite !readStartupArg_absent by assumption. reflexivity.
Qed.

(** X5 with nothing configured, and with the editor only. *)
Lemma X5_missing_configuration_is_reported_witness :
  let bare := {| env := fun _ => None; argv := [str "node"; str "index.js"];
                 path_resolve := fun a b => a ++ str "/" ++ b;
                 spawn := fun _ _ => sample_child [] [] (Some 0%Z);
                 readFile := fun _ => Thrown enoent |} in
  let editor_only := {| env := fun _ => None;
                        argv := [str "node"; str "index.js"; str "--unityEditor=/u"];
                        path_resolve := fun a b => a ++ str "/" ++ b;
                        spawn := fun _ _ => sample_child [] [] (Some 0%Z);
                        readFile := fun _ => Thrown enoent |} in
  let params := {| filter := None; platform := None |} in
  runUnityTests bare params =
    Thrown (Error (str "Missing Unity editor path. Provide via --unity-editor or UNITY_EDITOR_PATH."))
  /\ runUnityTests editor_only params =
     Thrown (Error (str "Missing Unity project path. Provide via --project or UNITY_PROJECT_PATH.")).
Proof.
  intros bare editor_only params. split.
  - apply (proj1 (X5_missing_configuration_is_reported bare params)); reflexivity.
  - apply (proj2 (X5_missing_configuration_is_reported editor_only params)); reflexivity.
Defined.

Lemma trim_length_blank (f : jsstring) : (0 <? length (trim f)) = negb (blank f).
Proof. rewrite <- truthy_trim. now destruct (trim f). Qed.

(** X6.  In a configured environment the editor is spawned with the fixed
    arguments, the platform (EditMode unless given), and [-testFilter]
    followed by the filter as given exactly when the filter is not blank;
    the results document and the log read afterwards are the files named
    to the editor as [-testResults] and [-logFile], [results.xml] and
    [batch.log] resolved against the project path. *)
Theorem X6_editor_invocation
        (w : World) (params : RunUnityTestsParams) (ed proj : jsstring) :
  resolveUnityEditorPath w = Some ed -> truthy ed = true ->
  resolveUnityProjectPath w = Some proj -> truthy proj = true ->
  let resultsPath := path_resolve w proj (str "results.xml") in
  let logPath := path_resolve w proj (str "batch.log") in
  let plat := match platform params with Some p => p | None => EditMode end in
  let args :=
    base_args proj resultsPath logPath plat ++
    match filter params with
    | Some f => if blank f then [] else [str "-testFilter"; f]
    | None => []
    end in
  runUnityTests w params =
  fst (summarize w resultsPath logPath (spawn w ed args) []).
Proof.
  intros He Te Hp Tp resultsPath logPath plat args.
  rewrite (runUnityTests_configured w params He Te Hp Tp). cbv zeta.
  unfold args, editor_args, base_args, resultsPath, logPath, plat.
  destruct (filter params) as [f|]; [|reflexivity].
  rewrite trim_length_blank. now destruct (blank f).
Qed.

(** X6 for a filter of blanks and for a filter with a leading blank. *)
Lemma X6_editor_invocation_witness :
  let child := sample_child [] [] (Some 0%Z) in
  let w := {| env := fun e => if str_eqb e (str "UNITY_EDITOR_PATH") then Some (str "/u")
                              else if str_eqb e (str "UNITY_PROJECT_PATH") then Some (str "/p")
                              else None;
              argv := [];
              path_resolve := fun a b => a ++ str "/" ++ b;
              spawn := fun _ args =>
                sample_child (join (str " ") (skipn 6 args)) [] (Some 0%Z);
              readFile := fun _ => Thrown enoent |} in
  runUnityTests w {| filter := Some (str "  "); platform := Some PlayMode |} =
  (fst (summarize w (str "/p/results.xml") (str "/p/batch.log")
                     (sample_child (str "-testPlatform PlayMode -testResults /p/results.xml -logFile /p/batch.log") [] (Some 0%Z)) []))
  /\ runUnityTests w {| filter := Some (str " Calc"); platform := None |} =
     (fst (summarize w (str "/p/results.xml") (str "/p/batch.log")
                     (sample_child (str "-testPlatform EditMode -testResults /p/results.xml -logFile /p/batch.log -testFilter  Calc") [] (Some 0%Z)) [])).
Proof.
  intros child w. split.
  - rewrite (X6_editor_invocation w _ (str "/u") (str "/p") eq_refl eq_refl eq_refl eq_refl).
    reflexivity.
  - rewrite (X6_editor_invocation w _ (str "/u") (str "/p") eq_refl eq_refl eq_refl eq_refl).
    reflexivity.
Defined.

(** ** The header tag *)

Lemma derives_re_header (s s' : jsstring) (caps : list jsstring) :
  derives re_header s [] s' caps ->
  exists u, s = header_open ++ u ++ [gt] ++ s' /\ caps = []
            /\ u <> [] /\ tag_text u = true.
Proof.
  unfold re_header. intros H. invert_derives.
  match goal with
  | Hc : not_chr gt ?c = true, Hu : forallb (not_chr gt) ?u = true |- _ =>
      exists (c :: u); unfold tag_text; cbn [forallb]; rewrite Hc, Hu
  end.
  repeat split; try reflexivity. discriminate.
Qed.

(** At a run-header tag with attributes the header pattern matches the
    tag, whole. *)
Lemma exec_at_re_header (a post : jsstring) :
  a <> [] -> tag_text a = true ->
  exec_at re_header (header_open ++ a ++ gt :: post) =
  Some ([header_open ++ a ++ [gt]], post).
Proof.
  intros Ha Ta. set (s := header_open ++ a ++ gt :: post).
  assert (Hd : derives re_header s [] post []).
  { unfold s, re_header.
    apply derives_lit_seq, derives_plus_seq; [exact Ha|exact Ta|].
    change (gt :: post) with ([gt] ++ post). constructor. }
  destruct (run_complete Hd (fun s' caps => Some (s', caps)) eq_refl)
    as [[s' caps] Hrun].
  destruct (run_sound _ _ _ _ Hrun) as (s1 & caps1 & Hd1 & [= <- <-]).
  apply derives_re_header in Hd1 as (u & Es & -> & _ & Tu).
  unfold exec_at. rewrite Hrun. unfold s in Es. apply app_inv_head in Es.
  apply (split_at_sep_inv (not_chr gt) gt a u post s1 (not_chr_self gt) Ta Tu)
    in Es as [<- <-].
  replace s with ((header_open ++ a ++ [gt]) ++ post)
    by (unfold s; now rewrite <- !app_assoc).
  now rewrite firstn_app_diff.
Qed.

Lemma re_header_begins : begins_with re_header header_open.
Proof. apply begins_with_lit. Qed.

(** X7.  The header stage copies the first run-header tag verbatim: when
    the first [<test-run ] of the document is followed by at least one
    code unit other than [>] and then by [>], the stage appends exactly the
    text of that tag and a newline. *)
Theorem X7_header_is_copied_verbatim (pre a post : jsstring) :
  count_sub (pre ++ header_open) header_open = 1 ->
  a <> [] -> tag_text a = true ->
  appended (headerStage (pre ++ header_open ++ a ++ gt :: post)) =
  header_open ++ a ++ [gt] ++ nl.
Proof.
  intros Hpre Ha Ta. unfold headerStage.
  rewrite (@js_match_skip header_open re_header pre (a ++ gt :: post)
             re_header_begins Hpre).
  rewrite (@js_match_here _ _ _ _ (exec_at_re_header a post Ha Ta)).
  unfold appended, append, group. cbn [nth snd app].
  now rewrite <- !app_assoc.
Qed.

(** X7 at the header of a results document. *)
Lemma X7_header_is_copied_verbatim_witness :
  appended (headerStage
              (quoted "<?xml version='1.0'?><test-run id='2' total='5' failed='2'><test-suite/></test-run>")) =
  quoted "<test-run id='2' total='5' failed='2'>" ++ nl.
Proof.
  apply (X7_header_is_copied_verbatim (quoted "<?xml version='1.0'?>")
           (quoted "id='2' total='5' failed='2'")
           (quoted "<test-suite/></test-run>"));
    [reflexivity | discriminate | reflexivity].
Defined.

(** ** Documents without the tags *)

Lemma begins_with_shorter (r : regex) (a b : jsstring) :
  begins_with r (a ++ b) -> begins_with r a.
Proof.
  intros Hr t Ht. apply Hr.
  destruct (startsWith t (a ++ b)) eqn:E; [|reflexivity].
  apply startsWith_true in E as [x ->]. rewrite <- app_assoc in Ht.
  now rewrite startsWith_app in Ht.
Qed.

Lemma scan_all_none (w : jsstring) (r : regex) (s : jsstring) :
  begins_with r w -> count_sub s w = 0 -> scan_all r 0 s = [].
Proof.
  intros Hr. induction s as [|c s IH]; cbn [count_sub scan_all]; intros Hc.
  - rewrite Hr; [reflexivity|]. destruct (startsWith [] w); [lia|reflexivity].
  - rewrite Hr; [apply IH; lia|].
    destruct (startsWith (c :: s) w); [lia|reflexivity].
Qed.

Lemma re_failure_begins : begins_with re_failure failure_open.
Proof. apply begins_with_lit. Qed.

(** X8.  A results document that was read but holds none of the opening
    texts [<test-run], [<test-case] and [<failure>] (an empty or truncated
    file, plain text) adds nothing to the summary, which then starts with
    the footer. *)
Theorem X8_document_without_tags_adds_nothing
        (w : World) (resultsPath logPath : jsstring) (child : Process)
        (xml : jsstring) :
  readFile w resultsPath = Returned xml ->
  count_sub xml run_tag = 0 ->
  count_sub xml case_tag = 0 ->
  count_sub xml failure_open = 0 ->
  appended (resultsStage w resultsPath) = []
  /\ fst (summarize w resultsPath logPath child []) =
     Returned {| summary :=
                   footer_text logPath (reported_code child) ++
                   stream_section (str "[stdout tail]") (stdoutBuf child) ++
                   stream_section (str "[stderr tail]") (stderrBuf child) ++
                   grep_text (reported_code child) (readFile w logPath);
                 exitCode := reported_code child |}.
Proof.
  intros Hread Hrun Hcase Hfail.
  assert (Hparsed : parsed_text xml = []).
  { unfold parsed_text.
    assert (H1 : appended (headerStage xml) = []).
    { unfold headerStage.
      rewrite (@js_match_none run_tag re_header xml); [reflexivity| |exact Hrun].
      apply (begins_with_shorter re_header run_tag (str " ")), re_header_begins. }
    assert (H2 : appended (totalsStage xml) = []).
    { unfold totalsStage.
      now rewrite (@js_match_none run_tag re_total xml re_total_begins Hrun). }
    assert (H3 : appended (failedCasesStage xml) = []).
    { unfold failedCasesStage, js_match_g.
      now rewrite (scan_all_none case_tag re_failed_case xml
                     re_failed_case_begins Hcase). }
    assert (H4 : appended (failureDetailStage xml) = []).
    { unfold failureDetailStage, js_match_g.
      now rewrite (scan_all_none failure_open re_failure xml
                     re_failure_begins Hfail). }
    now rewrite H1, H2, H3, H4. }
  split.
  - unfold appended. rewrite resultsStage_run, Hread. exact Hparsed.
  - rewrite summarize_run, before_grep_eq, Hread. cbv zeta. cbn [fst results_text].
    rewrite Hparsed. cbn [app]. now rewrite <- !app_assoc.
Qed.

(** X8 at an empty results file. *)
Lemma X8_document_without_tags_adds_nothing_witness :
  let child := sample_child [] [] (Some 0%Z) in
  let w := sample_world (Returned []) (Thrown enoent) child in
  fst (summarize w (str "/p/results.xml") (str "/p/batch.log") child []) =
  Returned {| summary := nl ++ str "Log: /p/batch.log" ++ nl ++ str "Exit code: 0";
              exitCode := 0 |}.
Proof.
  intros child w.
  destruct (X8_document_without_tags_adds_nothing
              w (str "/p/results.xml") (str "/p/batch.log") child []
              eq_refl eq_refl eq_refl eq_refl) as [_ ->].
  reflexivity.
Defined.

(** ** What the global scans return *)

Lemma scan_all_exec (r : regex) (s : jsstring) :
  forall skip m, In m (scan_all r skip s) ->
  exists t caps rest, exec_at r t = Some (m :: caps, rest).
Proof.
  induction s as [|c s IH]; intros skip m Hin.
  - cbn [scan_all] in Hin. destruct skip; [|easy].
    destruct (exec_at r []) as [[[|m0 caps] rest]|] eqn:E; try easy.
    destruct Hin as [<- | []]. now exists [], caps, rest.
  - cbn [scan_all] in Hin. destruct skip as [|n]; [|now apply (IH n)].
    destruct (exec_at r (c :: s)) as [[[|m0 caps] rest]|] eqn:E;
      try now apply (IH 0).
    destruct Hin as [<- | Hin]; [now exists (c :: s), caps, rest|].
    now apply (IH (length m0 - 1)).
Qed.

Lemma exec_at_inv (r : regex) (t : jsstring) (m : jsstring)
      (caps : list jsstring) (rest : jsstring) :
  exec_at r t = Some (m :: caps, rest) ->
  run r t [] (fun s' c => Some (s', c)) = Some (rest, caps)
  /\ m = firstn (length t - length rest) t.
Proof.
  unfold exec_at. destruct (run r t [] _) as [[s' c]|]; [|discriminate].
  intros [= <- <- <-]. now split.
Qed.

(** X9.  Every tag the failed-case scan returns is one tag: it starts with
    [<test-case], holds the attribute text [result=Failed] with that exact
    spelling, ends with its first [>], and has no other [>] inside. *)
Theorem X9_failed_case_tags_are_single_tags (xml tag : jsstring) :
  In tag (failed_case_tags xml) ->
  exists a b,
    tag = failed_case_tag a b /\ tag_text a = true /\ tag_text b = true.
Proof.
  unfold failed_case_tags, js_match_g, or_empty. intros Hin.
  assert (Hin' : In tag (scan_all re_failed_case 0 xml))
    by (destruct (scan_all re_failed_case 0 xml); [easy | exact Hin]).
  apply scan_all_exec in Hin' as (t & caps & rest & Hx).
  apply exec_at_inv in Hx as [Hrun ->].
  apply run_sound in Hrun as (s1 & caps1 & Hd & [= <- <-]).
  apply derives_re_failed_case in Hd as (u1 & u2 & -> & _ & T1 & T2).
  exists u1, u2. split; [|now split].
  replace (case_tag ++ u1 ++ result_failed ++ u2 ++ [gt] ++ s1)
    with (failed_case_tag u1 u2 ++ s1)
    by (unfold failed_case_tag; now rewrite <- !app_assoc).
  apply firstn_app_diff.
Qed.

(** X9 at a tag that follows a passed case. *)
Lemma X9_failed_case_tags_are_single_tags_witness :
  exists a b,
    quoted "<test-case name='B' result='Failed' time='1'>" = failed_case_tag a b
    /\ tag_text a = true /\ tag_text b = true.
Proof.
  apply (X9_failed_case_tags_are_single_tags
           (quoted "<test-case name='A' result='Passed'/><test-case name='B' result='Failed' time='1'><failure/></test-case>")).
  vm_compute. now left.
Defined.

(** ** Lazy runs stop at the first closing text *)

Lemma star_lazy_sound_min {R} p (k : cont R) s caps x :
  star_lazy p s caps k = Some x ->
  exists u s',
    s = u ++ s' /\ forallb p u = true /\ k s' caps = Some x
    /\ forall u1 u2, u = u1 ++ u2 -> u2 <> [] -> k (u2 ++ s') caps = None.
Proof.
  induction s as [|c s IH]; cbn [star_lazy].
  - destruct (k [] caps) eqn:K; [|discriminate]. intros [= ->].
    exists [], []. repeat split; try assumption.
    intros u1 u2 E Hu. symmetry in E. apply app_eq_nil in E as [_ ->]. easy.
  - destruct (k (c :: s) caps) as [y|] eqn:K.
    + intros [= ->]. exists [], (c :: s). repeat split; try assumption.
      intros u1 u2 E Hu. symmetry in E. apply app_eq_nil in E as [_ ->]. easy.
    + destruct (p c) eqn:E; [|discriminate]. intros H.
      destruct (IH H) as (u & s' & -> & Hu & Hk & Hmin).
      exists (c :: u), s'. cbn [forallb app]. rewrite E, Hu.
      repeat split; try assumption.
      intros [|c1 u1] u2 Eu Hu2; cbn [app] in Eu.
      * subst u2. exact K.
      * injection Eu as _ Eu. now apply (Hmin u1 u2).
Qed.

Lemma star_lazy_first {R} p (k : cont R) u s caps x :
  forallb p u = true -> k s caps = Some x ->
  (forall u1 u2, u = u1 ++ u2 -> u2 <> [] -> k (u2 ++ s) caps = None) ->
  star_lazy p (u ++ s) caps k = Some x.
Proof.
  induction u as [|c u IH]; intros Hu Hk Hmin.
  - cbn [app]. destruct s; cbn [star_lazy]; now rewrite Hk.
  - pose proof (Hmin [] (c :: u) eq_refl ltac:(discriminate)) as H0.
    cbn [app] in *. cbn [star_lazy]. rewrite H0.
    cbn [forallb] in Hu. apply andb_true_iff in Hu as [Hc Hu]. rewrite Hc.
    apply IH; [exact Hu | exact Hk |].
    intros u1 u2 -> Hu2. now apply (Hmin (c :: u1) u2).
Qed.

Lemma count_sub_short (s w : jsstring) :
  length s < length w -> count_sub s w = 0.
Proof.
  induction s as [|c s IH]; intros L; cbn [count_sub].
  - now rewrite startsWith_longer.
  - rewrite startsWith_longer by exact L. apply IH. cbn [length] in L. lia.
Qed.

Lemma count_sub_self (w : jsstring) : w <> [] -> count_sub w w = 1.
Proof.
  destruct w as [|c w]; [easy|]. intros _. rewrite count_sub_cons.
  assert (Hs : startsWith (c :: w) (c :: w) = true)
    by (apply startsWith_true; exists []; now rewrite app_nil_r).
  rewrite Hs, count_sub_short; [reflexivity | cbn [length]; lia].
Qed.

(** A closing text that no proper tail of [u] lets start occurs once in
    [u] followed by it. *)
Lemma count_sub_once_at_end (u w : jsstring) :
  w <> [] ->
  (forall u1 u2, u = u1 ++ u2 -> u2 <> [] -> startsWith (u2 ++ w) w = false) ->
  count_sub (u ++ w) w = 1.
Proof.
  intros Hw. induction u as [|c u IH]; intros Hmin.
  - now apply count_sub_self.
  - pose proof (Hmin [] (c :: u) eq_refl ltac:(discriminate)) as H0.
    cbn [app] in *. rewrite count_sub_cons, H0.
    apply IH. intros u1 u2 -> Hu2. now apply (Hmin (c :: u1) u2).
Qed.

(** The converse: when the closing text occurs once in [u] followed by it,
    no proper tail of [u] lets it start. *)
Lemma once_at_end_tails (u w : jsstring) :
  count_sub (u ++ w) w = 1 ->
  forall u1 u2, u = u1 ++ u2 -> u2 <> [] -> startsWith (u2 ++ w) w = false.
Proof.
  intros Hc u1 u2 -> Hu2.
  destruct (startsWith (u2 ++ w) w) eqn:E; [exfalso|reflexivity].
  apply startsWith_true in E as [y Ey].
  assert (E1 : (u1 ++ u2) ++ w = u1 ++ w ++ y) by now rewrite <- app_assoc, Ey.
  assert (E2 : (u1 ++ u2) ++ w = (u1 ++ u2) ++ w ++ []) by now rewrite app_nil_r.
  pose proof (@count_sub_unique w _ _ _ _ _ Hc E1 E2) as Eq.
  rewrite <- (app_nil_r u1) in Eq at 1. apply app_inv_head in Eq.
  now subst u2.
Qed.

(** X10.  Every failure block the scan returns starts with [<failure>] and
    ends with the first [</failure>] after it: the closing text occurs in
    the block only at its end. *)
Theorem X10_failure_blocks_end_at_first_close (xml block : jsstring) :
  In block (failure_blocks xml) ->
  exists body,
    block = failure_open ++ body ++ failure_close
    /\ count_sub (body ++ failure_close) failure_close = 1.
Proof.
  unfold failure_blocks, js_match_g, or_empty. intros Hin.
  assert (Hin' : In block (scan_all re_failure 0 xml))
    by (destruct (scan_all re_failure 0 xml); [easy | exact Hin]).
  apply scan_all_exec in Hin' as (t & caps & rest & Hx).
  apply exec_at_inv in Hx as [Hrun ->].
  unfold re_failure in Hrun. cbn [run] in Hrun.
  destruct (strip_prefix (str "<failure>") t) as [r|] eqn:Eo; [|discriminate].
  apply strip_prefix_Some in Eo. subst t.
  apply star_lazy_sound_min in Hrun as (u & s' & -> & _ & Hk & Hmin).
  destruct (strip_prefix (str "</failure>") s') as [s''|] eqn:Ec; [|discriminate].
  apply strip_prefix_Some in Ec. subst s'. injection Hk as <- _.
  exists u. split.
  - replace (str "<failure>" ++ u ++ str "</failure>" ++ s'')
      with ((failure_open ++ u ++ failure_close) ++ s'')
      by (unfold failure_open, failure_close; now rewrite <- !app_assoc).
    apply firstn_app_diff.
  - apply count_sub_once_at_end; [discriminate|].
    intros u1 u2 Eu Hu2. specialize (Hmin u1 u2 Eu Hu2).
    pose proof (startsWith_long (u2 ++ failure_close) s'' failure_close) as Hl.
    rewrite length_app in Hl. specialize (Hl ltac:(lia)).
    rewrite <- Hl, <- app_assoc. unfold startsWith, failure_close.
    now destruct (strip_prefix (str "</failure>") (u2 ++ str "</failure>" ++ s'')).
Qed.

(** X10 at a block whose CDATA text holds the closing text: the block is
    cut there. *)
Lemma X10_failure_blocks_end_at_first_close_witness :
  exists body,
    str "<failure><message><![CDATA[see </failure>" =
    failure_open ++ body ++ failure_close
    /\ count_sub (body ++ failure_close) failure_close = 1.
Proof.
  apply (X10_failure_blocks_end_at_first_close
           (str "<test-case><failure><message><![CDATA[see </failure> in doc]]></message></failure></test-case>")).
  vm_compute. now left.
Defined.

Lemma strip_prefix_tail_none (u2 w post : jsstring) :
  startsWith (u2 ++ w) w = false -> strip_prefix w (u2 ++ w ++ post) = None.
Proof.
  intros H. pose proof (startsWith_long (u2 ++ w) post w) as Hl.
  rewrite length_app in Hl. specialize (Hl ltac:(lia)).
  rewrite H, <- app_assoc in Hl. unfold startsWith in Hl.
  now destruct (strip_prefix w (u2 ++ w ++ post)).
Qed.

(** A pattern [open ( lazy any ) close] captures the text up to the first
    closing text. *)
Lemma exec_at_lazy_group (o c m post : jsstring) :
  count_sub (m ++ c) c = 1 ->
  exec_at (Lit o +++ Grp (StarLazy any_chr) +++ Lit c) (o ++ m ++ c ++ post) =
  Some ([o ++ m ++ c; m], post).
Proof.
  intros Hc. unfold exec_at. cbn [run]. rewrite strip_prefix_app.
  rewrite (star_lazy_first any_chr _ m (c ++ post) []
             (post, [] ++ [firstn (length (m ++ c ++ post) - length (c ++ post))
                                  (m ++ c ++ post)])).
  - rewrite firstn_app_diff. cbn [app].
    replace (o ++ m ++ c ++ post) with ((o ++ m ++ c) ++ post)
      by now rewrite <- !app_assoc.
    now rewrite firstn_app_diff.
  - clear. now induction m.
  - now rewrite strip_prefix_app.
  - intros u1 u2 Eu Hu2.
    now rewrite (strip_prefix_tail_none u2 c post
                   (once_at_end_tails m c Hc u1 u2 Eu Hu2)).
Qed.

(** The same without a group. *)
Lemma exec_at_lazy (o c m post : jsstring) :
  count_sub (m ++ c) c = 1 ->
  exec_at (Lit o +++ StarLazy any_chr +++ Lit c) (o ++ m ++ c ++ post) =
  Some ([o ++ m ++ c], post).
Proof.
  intros Hc. unfold exec_at. cbn [run]. rewrite strip_prefix_app.
  rewrite (star_lazy_first any_chr _ m (c ++ post) [] (post, [])).
  - replace (o ++ m ++ c ++ post) with ((o ++ m ++ c) ++ post)
      by now rewrite <- !app_assoc.
    now rewrite firstn_app_diff.
  - clear. now induction m.
  - now rewrite strip_prefix_app.
  - intros u1 u2 Eu Hu2.
    now rewrite (strip_prefix_tail_none u2 c post
                   (once_at_end_tails m c Hc u1 u2 Eu Hu2)).
Qed.

Lemma re_message_begins : begins_with re_message message_open.
Proof. apply begins_with_lit. Qed.

Lemma failure_message_cdata (pre m post : jsstring) :
  count_sub (pre ++ message_open) message_open = 1 ->
  count_sub (m ++ message_close) message_close = 1 ->
  failure_message (pre ++ message_open ++ m ++ message_close ++ post) =
  Some (trim m).
Proof.
  intros Hpre Hm. unfold failure_message.
  rewrite (@js_match_skip message_open re_message pre
             (m ++ message_close ++ post) re_message_begins Hpre).
  rewrite (@js_match_here re_message _ _ _
             (exec_at_lazy_group message_open message_close m post Hm)).
  reflexivity.
Qed.

(** X11.  The message of a failure block is the CDATA text between the
    first [<message><![CDATA[] of the block and the first []]></message>]
    after it, trimmed: what stands before, and what follows, does not
    matter. *)
Theorem X11_message_is_first_cdata_text (pre m post : jsstring) :
  count_sub (pre ++ message_open) message_open = 1 ->
  count_sub (m ++ message_close) message_close = 1 ->
  failure_message (pre ++ message_open ++ m ++ message_close ++ post) =
  Some (trim m).
Proof. apply failure_message_cdata. Qed.

(** X11 at a block with a message and a stack trace. *)
Lemma X11_message_is_first_cdata_text_witness :
  failure_message
    (str "<failure><message><![CDATA[  Expected 1 but was 2 ]]></message><stack-trace><![CDATA[at T.B ()]]></stack-trace></failure>") =
  Some (str "Expected 1 but was 2").
Proof.
  apply (X11_message_is_first_cdata_text (str "<failure>")
           (str "  Expected 1 but was 2 ")
           (str "<stack-trace><![CDATA[at T.B ()]]></stack-trace></failure>"));
    reflexivity.
Defined.

(** ** The failure blocks of a document *)

Lemma scan_all_skip_prefix (w : jsstring) (r : regex) (g x : jsstring) :
  begins_with r w -> count_sub (g ++ w) w = 1 ->
  scan_all r 0 (g ++ w ++ x) = scan_all r 0 (w ++ x).
Proof.
  intros Hr. induction g as [|c g IH]; intros Hc; [reflexivity|].
  cbn [app] in *. rewrite count_sub_cons in Hc.
  pose proof (count_sub_ge g w []) as Hge. rewrite app_nil_r in Hge.
  assert (Hs : startsWith (c :: g ++ w) w = false)
    by (destruct (startsWith (c :: g ++ w) w); [lia | reflexivity]).
  rewrite Hs in Hc. cbn [scan_all]. rewrite Hr; [apply IH; exact Hc|].
  pose proof (startsWith_long (c :: g ++ w) x w) as Hl.
  cbn [length] in Hl. rewrite length_app in Hl. specialize (Hl ltac:(lia)).
  rewrite Hs in Hl. now rewrite <- app_comm_cons, <- app_assoc in Hl.
Qed.

Lemma scan_all_at_match (r : regex) (m rest : jsstring) (caps : list jsstring) :
  m <> [] -> exec_at r (m ++ rest) = Some (m :: caps, rest) ->
  scan_all r 0 (m ++ rest) = m :: scan_all r 0 rest.
Proof.
  intros Hm Hx. destruct m as [|c m]; [easy|]. cbn [app] in *.
  cbn [scan_all]. rewrite Hx.
  replace (length (c :: m) - 1) with (length m) by (cbn [length]; lia).
  now rewrite scan_all_skip.
Qed.

Lemma or_empty_js_match_g (r : regex) (s : jsstring) :
  or_empty (js_match_g r s) = scan_all r 0 s.
Proof. unfold or_empty, js_match_g. now destruct (scan_all r 0 s). Qed.

(** X12.  The failure blocks of a document are found one after the other:
    when the first [<failure>] of the document opens a block whose body
    does not hold [</failure>], that block is the first one and the scan
    goes on with the text after it. *)
Theorem X12_failure_blocks_compose (g body rest : jsstring) :
  count_sub (g ++ failure_open) failure_open = 1 ->
  count_sub (body ++ failure_close) failure_close = 1 ->
  failure_blocks (g ++ failure_open ++ body ++ failure_close ++ rest) =
  (failure_open ++ body ++ failure_close) :: failure_blocks rest.
Proof.
  intros Hg Hb. unfold failure_blocks. rewrite !or_empty_js_match_g.
  rewrite (scan_all_skip_prefix failure_open re_failure g
             (body ++ failure_close ++ rest) re_failure_begins Hg).
  pose proof (exec_at_lazy failure_open failure_close body rest Hb) as Hx.
  fold re_failure in Hx.
  replace (failure_open ++ body ++ failure_close ++ rest)
    with ((failure_open ++ body ++ failure_close) ++ rest) in *
    by now rewrite <- !app_assoc.
  assert (Hne : failure_open ++ body ++ failure_close <> []).
  { intros E. apply app_eq_nil in E as [E _]. vm_compute in E. discriminate E. }
  apply (scan_all_at_match re_failure _ rest [] Hne Hx).
Qed.

(** X12 at a document with two blocks. *)
Lemma X12_failure_blocks_compose_witness :
  failure_blocks (str "<a><failure>one</failure><b/><failure>two</failure></a>") =
  [str "<failure>one</failure>"; str "<failure>two</failure>"].
Proof.
  change (str "<a><failure>one</failure><b/><failure>two</failure></a>")
    with (str "<a>" ++ failure_open ++ str "one" ++ failure_close ++
          str "<b/>" ++ failure_open ++ str "two" ++ failure_close ++ str "</a>").
  rewrite (X12_failure_blocks_compose (str "<a>") (str "one") _ eq_refl eq_refl).
  rewrite (X12_failure_blocks_compose (str "<b/>") (str "two") (str "</a>")
             eq_refl eq_refl).
  vm_compute. reflexivity.
Defined.

(** ** The lines of the log *)

Lemma exec_newline_lf (s : jsstring) :
  exec_at re_newline (lf :: s) = Some ([[lf]], s).
Proof.
  unfold exec_at, re_newline. cbn [run]. unfold is_chr.
  change (chr_eqb lf cr) with false. cbn [strip_prefix].
  rewrite chr_eqb_refl.
  change (lf :: s) with ([lf] ++ s). now rewrite firstn_app_diff.
Qed.

Lemma exec_newline_crlf (s : jsstring) :
  exec_at re_newline (cr :: lf :: s) = Some ([[cr; lf]], s).
Proof.
  unfold exec_at, re_newline. cbn [run]. unfold is_chr.
  rewrite chr_eqb_refl. cbn [strip_prefix]. rewrite chr_eqb_refl.
  change (cr :: lf :: s) with ([cr; lf] ++ s). now rewrite firstn_app_diff.
Qed.

Lemma exec_newline_none (c : ascii) (s : jsstring) :
  chr_eqb c lf = false ->
  (chr_eqb c cr = true -> startsWith s [lf] = false) ->
  exec_at re_newline (c :: s) = None.
Proof.
  intros Hlf Hcr. unfold exec_at, re_newline. cbn [run]. unfold is_chr.
  assert (Hk : strip_prefix [lf] (c :: s) = None).
  { cbn [strip_prefix]. unfold chr_eqb in *. now rewrite Ascii.eqb_sym, Hlf. }
  destruct (chr_eqb c cr) eqn:E.
  - specialize (Hcr eq_refl). unfold startsWith in Hcr.
    destruct (strip_prefix [lf] s); [discriminate|]. now rewrite Hk.
  - now rewrite Hk.
Qed.

Lemma split_scan_cons (r : regex) (skip : nat) (cur s : jsstring) :
  exists l ls, split_scan r skip cur s = l :: ls.
Proof.
  revert skip cur. induction s as [|c s IH]; intros skip cur; cbn [split_scan].
  - now exists (rev cur), [].
  - destruct skip as [|n]; [|apply IH].
    destruct (exec_at r (c :: s)) as [[[|m ms] rest]|]; try apply IH.
    destruct m as [|x m'], cur as [|y cur']; eauto.
Qed.

Lemma join_cons_next (p : jsstring) (l : list jsstring) :
  l <> [] -> join nl (p :: l) = p ++ nl ++ join nl l.
Proof. destruct l; [easy | reflexivity]. Qed.

Lemma normalize_cons (c : ascii) (s : jsstring) :
  (chr_eqb c cr = true -> startsWith s [lf] = false) ->
  normalize_newlines (c :: s) = c :: normalize_newlines s.
Proof.
  intros H. destruct s as [|d s]; [reflexivity|]. cbn [normalize_newlines].
  destruct (chr_eqb c cr) eqn:E; [|reflexivity].
  specialize (H eq_refl). unfold startsWith in H. cbn [strip_prefix] in H.
  unfold chr_eqb in *. rewrite Ascii.eqb_sym.
  destruct (Ascii.eqb lf d); [discriminate | reflexivity].
Qed.

Lemma split_scan_join (n : nat) :
  forall s cur, length s <= n ->
  join nl (split_scan re_newline 0 cur s) = rev cur ++ normalize_newlines s.
Proof.
  induction n as [|n IH]; intros s cur L.
  - destruct s; [|cbn in L; lia]. cbn. now rewrite app_nil_r.
  - destruct s as [|c s]; [cbn; now rewrite app_nil_r|].
    cbn [length] in L. cbn [split_scan].
    destruct (chr_eqb c lf) eqn:Elf.
    + apply chr_eqb_eq in Elf. subst c. rewrite exec_newline_lf.
      destruct (split_scan_cons re_newline 0 [] s) as (l & ls & El).
      assert (Hj : join nl (rev cur :: split_scan re_newline 0 [] s) =
                   rev cur ++ nl ++ normalize_newlines s).
      { rewrite join_cons_next by (rewrite El; discriminate).
        rewrite (IH s [] ltac:(lia)). reflexivity. }
      rewrite (normalize_cons lf s) by discriminate.
      destruct cur; exact Hj.
    + destruct (chr_eqb c cr) eqn:Ecr.
      * apply chr_eqb_eq in Ecr. subst c.
        destruct s as [|d s].
        -- rewrite exec_newline_none; [|exact Elf|reflexivity].
           cbn [split_scan rev normalize_newlines]. reflexivity.
        -- destruct (chr_eqb d lf) eqn:Ed.
           ++ apply chr_eqb_eq in Ed. subst d. rewrite exec_newline_crlf.
              cbn [length split_scan normalize_newlines].
              rewrite !chr_eqb_refl. cbn [andb].
              destruct (split_scan_cons re_newline 0 [] s) as (l & ls & El).
              assert (Hj : join nl (rev cur :: split_scan re_newline 0 [] s) =
                           rev cur ++ nl ++ normalize_newlines s).
              { rewrite join_cons_next by (rewrite El; discriminate).
                cbn [length] in L. rewrite (IH s [] ltac:(lia)). reflexivity. }
              destruct cur; exact Hj.
           ++ assert (Hs : startsWith (d :: s) [lf] = false).
              { unfold startsWith. cbn [strip_prefix]. unfold chr_eqb in *.
                now rewrite Ascii.eqb_sym, Ed. }
              rewrite exec_newline_none; [|exact Elf|intros _; exact Hs].
              rewrite (IH (d :: s) (cr :: cur) ltac:(lia)).
              rewrite (normalize_cons cr (d :: s) (fun _ => Hs)).
              cbn [rev]. now rewrite <- app_assoc.
      * rewrite exec_newline_none; [|exact Elf|rewrite Ecr; discriminate].
        rewrite (IH s (c :: cur) ltac:(lia)).
        rewrite (normalize_cons c s) by (rewrite Ecr; discriminate).
        cbn [rev]. now rewrite <- app_assoc.
Qed.

Lemma normalize_without_cr (s : jsstring) :
  existsb (chr_eqb cr) s = false -> normalize_newlines s = s.
Proof.
  induction s as [|c s IH]; [reflexivity|]. cbn [existsb].
  intros [Hc Hs]%orb_false_iff. rewrite normalize_cons.
  - now rewrite (IH Hs).
  - unfold chr_eqb in *. rewrite Ascii.eqb_sym, Hc. discriminate.
Qed.

(** X13.  The log is split at LF and at CR LF, and nothing else is lost:
    the lines joined by LF give back the log with every CR LF replaced by
    LF, so a log without CR is given back unchanged; a CR that is not
    followed by LF stays in its line. *)
Theorem X13_log_lines_round_trip (logText : jsstring) :
  join nl (js_split re_newline logText) = normalize_newlines logText
  /\ (existsb (chr_eqb cr) logText = false ->
      join nl (js_split re_newline logText) = logText).
Proof.
  assert (H : join nl (js_split re_newline logText) = normalize_newlines logText).
  { unfold js_split. destruct logText as [|c s]; [reflexivity|].
    now rewrite (split_scan_join (length (c :: s)) (c :: s) [] (le_n _)). }
  split; [exact H|]. intros Hcr. now rewrite H, normalize_without_cr.
Qed.

(** X13 at a log without CR. *)
Lemma X13_log_lines_round_trip_witness :
  join nl (js_split re_newline (str "one" ++ nl ++ nl ++ str "three" ++ nl)) =
  str "one" ++ nl ++ nl ++ str "three" ++ nl.
Proof.
  apply (proj2 (X13_log_lines_round_trip (str "one" ++ nl ++ nl ++ str "three" ++ nl))).
  reflexivity.
Defined.

(** ** The log-grep section for any number of matching lines *)

Lemma last_chars_min {A} (n : nat) (l : list A) :
  length (last_chars n l) = Nat.min (length l) n.
Proof. rewrite last_chars_skipn, length_skipn. lia. Qed.

(** X14.  For a nonzero exit code and a readable log: with no matching
    line the section says that no line was found; with [n] matching lines
    the header reads [(k/n matches)] where [k] is the smaller of [n] and
    200, and the section lists the last [k] matching lines. *)
Theorem X14_grep_section_counts
        (w : World) (logPath : jsstring) (code : Z) (logText : jsstring) :
  code <> 0%Z ->
  readFile w logPath = Returned logText ->
  (error_lines logText = [] ->
   appended (logGrepStage w logPath code) =
   grep_label ++ str "]" ++ nl ++ str "No 'error' lines found.")
  /\ (error_lines logText <> [] ->
      appended (logGrepStage w logPath code) =
        grep_label ++ str " (" ++
        show_nat (Nat.min (length (error_lines logText)) 200) ++ str "/" ++
        show_nat (length (error_lines logText)) ++ str " matches)]" ++ nl ++
        join nl (last_chars 200 (error_lines logText))
      /\ length (last_chars 200 (error_lines logText)) =
         Nat.min (length (error_lines logText)) 200).
Proof.
  intros Hcode Hread.
  assert (Happ : appended (logGrepStage w logPath code) =
                 grep_text code (readFile w logPath))
    by (unfold appended; now rewrite logGrepStage_run).
  rewrite Happ, Hread. unfold grep_text.
  apply Z.eqb_neq in Hcode. rewrite Hcode. split.
  - intros ->. reflexivity.
  - intros Hne. split; [|apply last_chars_min].
    destruct (error_lines logText) as [|l errs] eqn:E; [easy|].
    unfold grep_found. cbv zeta. now rewrite last_chars_min.
Qed.

(** X14 at a log with three matching lines and at a log with none. *)
Lemma X14_grep_section_counts_witness :
  let log := str "Error a" ++ nl ++ str "fine" ++ nl ++ str "ERROR b" ++ nl ++ str "error c" in
  appended (logGrepStage (sample_world (Thrown enoent) (Returned log)
                            (sample_child [] [] (Some 1%Z)))
              (str "/p/batch.log") 1) =
    grep_label ++ str " (3/3 matches)]" ++ nl ++
    str "Error a" ++ nl ++ str "ERROR b" ++ nl ++ str "error c"
  /\ appended (logGrepStage (sample_world (Thrown enoent) (Returned (str "all fine"))
                               (sample_child [] [] (Some 1%Z)))
                 (str "/p/batch.log") 1) =
     grep_label ++ str "]" ++ nl ++ str "No 'error' lines found.".
Proof.
  intros log. split.
  - destruct (X14_grep_section_counts
                (sample_world (Thrown enoent) (Returned log)
                   (sample_child [] [] (Some 1%Z)))
                (str "/p/batch.log") 1 log ltac:(discriminate) eq_refl)
      as [_ Hsome].
    destruct (Hsome ltac:(vm_compute; discriminate)) as [-> _].
    vm_compute. reflexivity.
  - apply (proj1 (X14_grep_section_counts
                    (sample_world (Thrown enoent) (Returned (str "all fine"))
                       (sample_child [] [] (Some 1%Z)))
                    (str "/p/batch.log") 1 (str "all fine")
                    ltac:(discriminate) eq_refl)).
    vm_compute. reflexivity.
Defined.

(** ** The tool response *)

(** X15.  In a configured environment, once the editor process started
    with the arguments of the run has closed, leaving [child] behind, the
    tool handler returns a response: its text is the summary of the run and
    its error flag is set exactly when the editor closed with a code that
    is neither null nor 0. *)
Theorem X15_tool_response_of_a_run
        (w : World) (testFilter : option jsstring) (testPlatform : option Platform)
        (ed proj : jsstring) (child : Process) :
  resolveUnityEditorPath w = Some ed -> truthy ed = true ->
  resolveUnityProjectPath w = Some proj -> truthy proj = true ->
  let resultsPath := path_resolve w proj (str "results.xml") in
  let logPath := path_resolve w proj (str "batch.log") in
  let plat := match testPlatform with Some p => p | None => EditMode end in
  spawn w ed (editor_args proj resultsPath logPath plat testFilter) = child ->
  run_unity_tests_tool w testFilter testPlatform =
  Returned {| text := before_grep w resultsPath logPath child ++
                      grep_text (reported_code child) (readFile w logPath);
              isError := match closeCode child with
                         | Some code => negb (code =? 0)%Z
                         | None => false
                         end |}.
Proof.
  intros He Te Hp Tp resultsPath logPath plat Hchild.
  unfold run_unity_tests_tool.
  rewrite (@runUnityTests_configured w _ ed proj He Te Hp Tp).
  cbv zeta. cbn [platform filter].
  fold resultsPath logPath plat. rewrite Hchild.
  rewrite summarize_run. cbv zeta. cbn [fst summary exitCode].
  unfold reported_code. now destruct (closeCode child).
Qed.

(** X15 for an editor that closed with code 3 and for one killed by a
    signal. *)
Lemma X15_tool_response_of_a_run_witness :
  let failed := sample_child [] [] (Some 3%Z) in
  let killed := sample_child [] [] None in
  (exists t, run_unity_tests_tool
               (sample_world (Thrown enoent) (Thrown enoent) failed) None None =
             Returned {| text := t; isError := true |})
  /\ (exists t, run_unity_tests_tool
                  (sample_world (Thrown enoent) (Thrown enoent) killed)
                  (Some (str "Calc")) (Some PlayMode) =
                Returned {| text := t; isError := false |}).
Proof.
  intros failed killed. split.
  - rewrite (X15_tool_response_of_a_run
               (sample_world (Thrown enoent) (Thrown enoent) failed) None None
               (str "/u") (str "/p") failed
               eq_refl eq_refl eq_refl eq_refl eq_refl).
    eexists. reflexivity.
  - rewrite (X15_tool_response_of_a_run
               (sample_world (Thrown enoent) (Thrown enoent) killed)
               (Some (str "Calc")) (Some PlayMode)
               (str "/u") (str "/p") killed
               eq_refl eq_refl eq_refl eq_refl eq_refl).
    eexists. reflexivity.
Defined.

(** ** Header and totals of different tags *)

(** At a run-header tag without a total attribute the totals pattern has
    no reading. *)
Lemma exec_at_re_total_no_total (c rest : jsstring) :
  tag_text c = true -> count_sub c total_attr = 0 ->
  exec_at re_total (run_tag ++ c ++ gt :: rest) = None.
Proof.
  intros Tc Hc. unfold exec_at.
  destruct (run re_total _ [] _) as [[s0 caps0]|] eqn:Hrun; [exfalso|reflexivity].
  destruct (run_sound _ _ _ _ Hrun) as (s1 & caps1 & Hd & _).
  apply derives_re_total in Hd
    as (u1 & d1 & u2 & d2 & Es & _ & _ & Tu1 & _).
  apply app_inv_head in Es. rewrite (app_assoc u1) in Es. symmetry in Es.
  apply tag_text_prefix in Es as [y Ey].
  - rewrite <- app_assoc in Ey. pose proof (count_sub_ge u1 total_attr y) as Hge.
    rewrite <- Ey in Hge. lia.
  - rewrite tag_text_app, Tu1. reflexivity.
Qed.

(** X16.  The header line and the totals line need not come from the same
    tag: when the first run-header tag has no total attribute and a later
    [<test-run] tag carries total and failed (in that order, once each),
    the summary shows the text of the first tag and the totals of the
    later one. *)
Theorem X16_header_and_totals_of_different_tags
        (pre a mid b1 N b2 M b3 post : jsstring) :
  let body := b1 ++ total_attr ++ N ++ [dq] ++ b2 ++ failed_attr ++ M ++ [dq] ++ b3 in
  let xml := pre ++ header_open ++ a ++ [gt] ++ mid ++ run_tag ++ body ++ gt :: post in
  count_sub (pre ++ header_open) header_open = 1 ->
  count_sub (pre ++ run_tag) run_tag = 1 ->
  a <> [] -> tag_text a = true -> count_sub (str " " ++ a) total_attr = 0 ->
  count_sub (str "test-run " ++ a ++ [gt] ++ mid ++ run_tag) run_tag = 1 ->
  b1 <> [] -> b2 <> [] -> digits N = true -> digits M = true ->
  tag_text body = true ->
  count_sub body total_attr = 1 -> count_sub body failed_attr = 1 ->
  appended (headerStage xml) = header_open ++ a ++ [gt] ++ nl
  /\ appended (totalsStage xml) = totals_line N M.
Proof.
  intros body xml Hh Hr Ha Ta Hnt Hmid Hb1 Hb2 HN HM Tb HcT HcF. split.
  - unfold xml, headerStage.
    rewrite (@js_match_skip header_open re_header pre _ re_header_begins Hh).
    change ([gt] ++ mid ++ run_tag ++ body ++ gt :: post)
      with (gt :: mid ++ run_tag ++ body ++ gt :: post).
    rewrite (@js_match_here _ _ _ _
               (exec_at_re_header a (mid ++ run_tag ++ body ++ gt :: post) Ha Ta)).
    unfold appended, append, group. cbn [nth snd app].
    now rewrite <- !app_assoc.
  - rewrite totalsStage_appended.
    assert (Ex : xml = pre ++ run_tag ++
                       (str " " ++ a) ++ gt :: mid ++ run_tag ++ body ++ gt :: post).
    { unfold xml. change header_open with (run_tag ++ str " ").
      now rewrite <- !app_assoc. }
    rewrite Ex.
    rewrite (@js_match_skip run_tag re_total pre _ re_total_begins Hr).
    assert (Hnone : exec_at re_total
                      (run_tag ++ (str " " ++ a) ++
                       gt :: mid ++ run_tag ++ body ++ gt :: post) = None).
    { apply exec_at_re_total_no_total; [|exact Hnt].
      rewrite tag_text_app, Ta. reflexivity. }
    change (run_tag ++ (str " " ++ a) ++ gt :: mid ++ run_tag ++ body ++ gt :: post)
      with ("<"%char :: str "test-run" ++ (str " " ++ a) ++
            gt :: mid ++ run_tag ++ body ++ gt :: post) in *.
    cbn [js_match]. rewrite Hnone.
    replace (str "test-run" ++ (str " " ++ a) ++
             gt :: mid ++ run_tag ++ body ++ gt :: post)
      with ((str "test-run " ++ a ++ [gt] ++ mid) ++ run_tag ++ body ++ gt :: post)
      by (change (str "test-run ") with (str "test-run" ++ str " ");
          now rewrite <- !app_assoc).
    rewrite (@js_match_skip run_tag re_total _ _ re_total_begins).
    + destruct (@exec_at_re_total b1 N b2 M b3 post Hb1 Hb2 HN HM Tb HcT HcF)
        as (m0 & rest & Hx).
      fold body in Hx. now rewrite (@js_match_here _ _ _ _ Hx).
    + now rewrite <- !app_assoc.
Qed.

(** X16 at a document whose outer tag has no counts. *)
Lemma X16_header_and_totals_of_different_tags_witness :
  let xml := quoted "<test-run id='1'><results><test-run id='2' total='7' x='' failed='3'></test-run></results></test-run>" in
  appended (headerStage xml) = quoted "<test-run id='1'>" ++ nl
  /\ appended (totalsStage xml) = str "Total: 7, Failed: 3" ++ nl.
Proof.
  intros xml.
  apply (X16_header_and_totals_of_different_tags
           [] (quoted "id='1'") (str "<results>")
           (quoted " id='2' ") (str "7") (quoted " x='' ") (str "3") []
           (str "</test-run></results></test-run>"));
    try reflexivity; discriminate.
Defined.

(** ** Which blocks qualify *)

(** X17.  Whether a failure block qualifies depends on its first CDATA
    message alone: a message of white space only never qualifies, nor does
    the generic sentence with white space around it; every other message
    does. *)
Theorem X17_block_qualifies_by_trimmed_message (pre m post : jsstring) :
  count_sub (pre ++ message_open) message_open = 1 ->
  count_sub (m ++ message_close) message_close = 1 ->
  qualifies (pre ++ message_open ++ m ++ message_close ++ post) =
  negb (blank m) && negb (str_eqb (trim m) generic_failure).
Proof.
  intros Hpre Hm. unfold qualifies.
  rewrite (failure_message_cdata pre m post Hpre Hm).
  now rewrite str_eqb_nil, negb_involutive, truthy_trim.
Qed.

(** X17 at the generic message on a line of its own. *)
Lemma X17_block_qualifies_by_trimmed_message_witness :
  qualifies (str "<failure>" ++ message_open ++
             (nl ++ str "  One or more child tests had errors" ++ nl) ++
             message_close ++ str "</failure>") = false
  /\ qualifies (str "<failure>" ++ message_open ++ str " NaN " ++
                message_close ++ str "</failure>") = true.
Proof.
  split.
  - rewrite (X17_block_qualifies_by_trimmed_message (str "<failure>")
               (nl ++ str "  One or more child tests had errors" ++ nl)
               (str "</failure>") eq_refl eq_refl).
    reflexivity.
  - rewrite (X17_block_qualifies_by_trimmed_message (str "<failure>")
               (str " NaN ") (str "</failure>") eq_refl eq_refl).
    reflexivity.
Defined.

(** ** The second spelling of each flag *)

(** X18.  When the environment variable is unset or empty and the first
    spelling of a flag is absent from the command line, the second
    spelling is used: [--unityEditor] for the editor and [--projectPath]
    for the project, each with the argument that follows it. *)
Theorem X18_second_flag_spelling (w : World) (v : jsstring) (pre post : list jsstring) :
  (truthy_opt (env w (str "UNITY_EDITOR_PATH")) = false ->
   flag_absent (str "--unity-editor") (argv w) = true ->
   argv w = pre ++ str "--unityEditor" :: v :: post ->
   forallb (fun a => negb (str_eqb a (str "--unityEditor"))) pre = true ->
   resolveUnityEditorPath w = Some v)
  /\ (truthy_opt (env w (str "UNITY_PROJECT_PATH")) = false ->
      flag_absent (str "--project") (argv w) = true ->
      argv w = pre ++ str "--projectPath" :: v :: post ->
      forallb (fun a => negb (str_eqb a (str "--projectPath"))) pre = true ->
      resolveUnityProjectPath w = Some v).
Proof.
  split; intros He Habs Hargv Hpre.
  - unfold resolveUnityEditorPath.
    rewrite (readStartupArg_absent w _ _ He Habs).
    now rewrite (readStartupArg_positional w _ _ v pre post He Hargv Hpre).
  - unfold resolveUnityProjectPath.
    rewrite (readStartupArg_absent w _ _ He Habs).
    now rewrite (readStartupArg_positional w _ _ v pre post He Hargv Hpre).
Qed.

(** X18 for a command line with the second spelling of the editor flag. *)
Lemma X18_second_flag_spelling_witness :
  let w := {| env := fun _ => None;
              argv := [str "node"; str "index.js"; str "--unityEditor"; str "/u";
                       str "--projectPath"; str "/p"];
              path_resolve := fun a b => a ++ str "/" ++ b;
              spawn := fun _ _ => sample_child [] [] (Some 0%Z);
              readFile := fun _ => Thrown enoent |} in
  resolveUnityEditorPath w = Some (str "/u")
  /\ resolveUnityProjectPath w = Some (str "/p").
Proof.
  intros w. split.
  - apply (proj1 (X18_second_flag_spelling w (str "/u") [str "node"; str "index.js"]
                    [str "--projectPath"; str "/p"])); reflexivity.
  - apply (proj2 (X18_second_flag_spelling w (str "/p")
                    [str "node"; str "index.js"; str "--unityEditor"; str "/u"] []));
      reflexivity.
Defined.

(** * The results stages, on the summary of a run

    The claims about the failed-case lines, the failure detail and the
    stream sections are stated on what [summarize] returns, with the
    document read by its text. *)

(** ** Patterns read against the text *)























(** ** The summary of a run that read its results document *)

Lemma summary_of_document_run (w : World) (resultsPath logPath : jsstring)
      (child : Process) (xml : jsstring) :
  readFile w resultsPath = Returned xml ->
  fst (summarize w resultsPath logPath child []) =
  Returned {| summary :=
                summary_of_document w logPath child xml
                  (appended (failedCasesStage xml))
                  (appended (failureDetailStage xml));
              exitCode := reported_code child |}.
Proof.
  intros Hr. rewrite (@summary_of_read w resultsPath logPath child xml Hr).
  reflexivity.
Qed.






(** ** The failed-case pattern read against the text *)

Lemma includes_split (s w : jsstring) :
  includes s w = true -> exists a b, s = a ++ w ++ b.
Proof.
  induction s as [|c s IH]; rewrite includes_unfold;
    intros [H | H]%orb_true_iff.
  - apply startsWith_true in H as [x ->]. now exists [], x.
  - discriminate.
  - apply startsWith_true in H as [x ->]. now exists [], x.
  - destruct (IH H) as (a & b & ->). now exists (c :: a), b.
Qed.

Lemma exec_at_failed_tag_at (s : jsstring) :
  exec_at re_failed_case s =
  match failed_tag_at s with
  | Some (tag, rest) => Some ([tag], rest)
  | None => None
  end.
Proof.
  unfold failed_tag_at.
  destruct (strip_prefix case_tag s) as [r|] eqn:E.
  - apply strip_prefix_Some in E. subst s.
    destruct (drop_while (not_chr gt) r) as [|d rest] eqn:D.
    + unfold exec_at.
      destruct (run re_failed_case _ [] _) as [[s0 caps0]|] eqn:Hrun;
        [exfalso|reflexivity].
      destruct (run_sound _ _ _ _ Hrun) as (s1 & caps1 & Hd & _).
      apply derives_re_failed_case in Hd as (u1 & u2 & Es & _ & _ & _).
      apply app_inv_head in Es.
      pose proof (take_while_all (not_chr gt) r) as Hall.
      rewrite (take_drop_while (not_chr gt) r), D, app_nil_r in Es.
      rewrite Es, !forallb_app in Hall. cbn [forallb] in Hall.
      rewrite not_chr_self in Hall.
      now rewrite !andb_false_r in Hall.
    + apply drop_while_head in D as Hd. unfold not_chr in Hd.
      apply negb_false_iff, chr_eqb_eq in Hd. subst d.
      pose proof (take_drop_while (not_chr gt) r) as Er. rewrite D in Er.
      destruct (includes (take_while (not_chr gt) r) result_failed) eqn:I.
      * destruct (includes_split _ _ I) as (a & b & Et).
        pose proof (take_while_all (not_chr gt) r) as Hall.
        fold (tag_text (take_while (not_chr gt) r)) in Hall.
        rewrite Et, !tag_text_app in Hall.
        apply andb_true_iff in Hall as [Ta [_ Tb]%andb_true_iff].
        pose proof (exec_at_failed_case_tag a b rest Ta Tb) as Hx.
        assert (E1 : failed_case_tag a b =
                     case_tag ++ take_while (not_chr gt) r ++ [gt])
          by (unfold failed_case_tag; rewrite Et; now rewrite <- !app_assoc).
        assert (E2 : failed_case_tag a b ++ rest = case_tag ++ r).
        { rewrite E1, <- !app_assoc. cbn [app]. now rewrite <- Er. }
        rewrite E2, E1 in Hx. exact Hx.
      * rewrite <- (app_nil_r r). apply exec_at_unfailed.
        unfold closes_unfailed. now rewrite D, I.
  - apply re_failed_case_begins. unfold startsWith. now rewrite E.
Qed.

Lemma scan_all_failed_tags (s : jsstring) :
  forall skip, scan_all re_failed_case skip s = failed_tags_from skip s.
Proof.
  induction s as [|c s IH]; intros skip; cbn [scan_all failed_tags_from].
  - rewrite exec_at_failed_tag_at. now destruct skip.
  - destruct skip as [|n]; [|apply IH]. rewrite exec_at_failed_tag_at.
    destruct (failed_tag_at (c :: s)) as [[tag rest]|]; [f_equal|]; apply IH.
Qed.

Lemma failed_case_tags_failed_tags (xml : jsstring) :
  failed_case_tags xml = failed_tags xml.
Proof.
  unfold failed_case_tags, failed_tags.
  now rewrite or_empty_js_match_g, scan_all_failed_tags.
Qed.

Lemma failed_cases_text_appended (xml : jsstring) :
  appended (failedCasesStage xml) = failed_cases_text (failed_tags xml).
Proof.
  rewrite failedCasesStage_appended, failed_case_tags_failed_tags.
  unfold failed_cases_text. now destruct (failed_tags xml).
Qed.

Lemma failed_tag_at_shape (s tag rest : jsstring) :
  failed_tag_at s = Some (tag, rest) ->
  s = tag ++ rest
  /\ exists a b, tag = failed_case_tag a b /\ tag_text a = true /\ tag_text b = true.
Proof.
  unfold failed_tag_at.
  destruct (strip_prefix case_tag s) as [r|] eqn:E; [|discriminate].
  apply strip_prefix_Some in E. subst s.
  destruct (drop_while (not_chr gt) r) as [|d rest0] eqn:D; [discriminate|].
  destruct (includes (take_while (not_chr gt) r) result_failed) eqn:I;
    [|discriminate].
  intros H.
  assert (H1 : tag = case_tag ++ take_while (not_chr gt) r ++ [gt]) by congruence.
  assert (H2 : rest = rest0) by congruence.
  clear H. subst tag rest.
  apply drop_while_head in D as Hd. unfold not_chr in Hd.
  apply negb_false_iff, chr_eqb_eq in Hd. subst d.
  pose proof (take_drop_while (not_chr gt) r) as Er. rewrite D in Er.
  split; [rewrite <- !app_assoc; cbn [app]; now rewrite <- Er|].
  destruct (includes_split _ _ I) as (a & b & Et).
  pose proof (take_while_all (not_chr gt) r) as Hall.
  fold (tag_text (take_while (not_chr gt) r)) in Hall.
  rewrite Et, !tag_text_app in Hall.
  apply andb_true_iff in Hall as [Ta [_ Tb]%andb_true_iff].
  exists a, b. split; [|now split].
  unfold failed_case_tag. rewrite Et. now rewrite <- !app_assoc.
Qed.

Lemma failed_tags_shape (s : jsstring) :
  forall skip tag, In tag (failed_tags_from skip s) ->
  exists a b, tag = failed_case_tag a b /\ tag_text a = true /\ tag_text b = true.
Proof.
  induction s as [|c s IH]; intros skip tag; cbn [failed_tags_from]; [easy|].
  destruct skip as [|n]; [|apply IH].
  destruct (failed_tag_at (c :: s)) as [[t rest]|] eqn:E; [|apply IH].
  intros [<- | Hin]; [|now apply IH in Hin].
  now apply failed_tag_at_shape in E.
Qed.

(** ** The claims on the summary of a run *)

Lemma stream_section_tail (label text : jsstring) :
  tail_section label text (stream_section label text).
Proof.
  unfold tail_section, stream_section. split; [|split].
  - now intros ->.
  - intros -> L. apply Nat.ltb_ge in L. now rewrite L.
  - intros -> L. apply Nat.ltb_lt in L as L'. rewrite L'.
    exists (firstn (length text - 1000) text), (last_chars 1000 text).
    split; [apply last_chars_suffix|]. split; [|reflexivity].
    apply last_chars_length. lia.
Qed.

(** The end of a text is determined by its length. *)
Lemma kept_last_chars (n : nat) (text dropped kept : jsstring) :
  text = dropped ++ kept -> length kept = n -> kept = last_chars n text.
Proof.
  intros -> <-. rewrite last_chars_skipn, length_app.
  replace (length dropped + length kept - length kept) with (length dropped) by lia.
  rewrite skipn_app, skipn_all, Nat.sub_diag. reflexivity.
Qed.

(** C7.  The summary of every run holds, between the footer and the
    log-grep section, the section of the captured standard output and then
    the section of the captured standard error.  A stream whose text is
    blank (white space only) gets no section; a non-blank text of at most
    1000 code units is appended whole under its label; a longer one is cut
    to exactly its last 1000 code units, the head dropped, nothing put in
    its place. *)
Theorem C7_stream_tails (w : World) (resultsPath logPath : jsstring)
        (child : Process) :
  exists out_section err_section,
    fst (summarize w resultsPath logPath child []) =
      Returned {| summary :=
                    summary_of_streams w resultsPath logPath child
                                       out_section err_section;
                  exitCode := reported_code child |}
    /\ tail_section (str "[stdout tail]") (stdoutBuf child) out_section
    /\ tail_section (str "[stderr tail]") (stderrBuf child) err_section.
Proof.
  exists (stream_section (str "[stdout tail]") (stdoutBuf child)),
         (stream_section (str "[stderr tail]") (stderrBuf child)).
  split; [|split; apply stream_section_tail].
  rewrite summarize_run, before_grep_eq. cbv zeta. cbn [fst].
  unfold summary_of_streams. now rewrite <- !app_assoc.
Qed.

(** C7 at a run whose standard output has 1200 code units and whose
    standard error is blank, and at a run with a blank standard output and
    a short standard error. *)
Lemma C7_stream_tails_witness :
  let long := sample_child (repeat "x"%char 200 ++ repeat "y"%char 1000)
                           (str "  ") (Some 0%Z) in
  let short := sample_child [lf] (str "oops") (Some 0%Z) in
  fst (summarize (sample_world (Thrown enoent) (Thrown enoent) long)
                 (str "/p/results.xml") (str "/p/batch.log") long []) =
    Returned {| summary :=
                  results_notice ++ nl ++ str "Log: /p/batch.log" ++ nl ++
                  str "Exit code: 0" ++ nl ++ nl ++ str "[stdout tail]" ++ nl ++
                  repeat "y"%char 1000;
                exitCode := 0 |}
  /\ fst (summarize (sample_world (Thrown enoent) (Thrown enoent) short)
                    (str "/p/results.xml") (str "/p/batch.log") short []) =
    Returned {| summary :=
                  results_notice ++ nl ++ str "Log: /p/batch.log" ++ nl ++
                  str "Exit code: 0" ++ nl ++ nl ++ str "[stderr tail]" ++ nl ++
                  str "oops";
                exitCode := 0 |}.
Proof.
  intros long short. split.
  - destruct (C7_stream_tails (sample_world (Thrown enoent) (Thrown enoent) long)
                (str "/p/results.xml") (str "/p/batch.log") long)
      as (out & err & -> & (_ & _ & Hlong) & (Hblank & _)).
    destruct (Hlong ltac:(vm_compute; reflexivity) ltac:(vm_compute; lia))
      as (dropped & kept & Et & Lk & ->).
    rewrite (Hblank eq_refl), (kept_last_chars 1000 _ dropped kept Et Lk).
    vm_compute. reflexivity.
  - destruct (C7_stream_tails (sample_world (Thrown enoent) (Thrown enoent) short)
                (str "/p/results.xml") (str "/p/batch.log") short)
      as (out & err & -> & (Hblank & _) & (_ & Hshort & _)).
    rewrite (Hblank eq_refl),
      (Hshort ltac:(vm_compute; reflexivity) ltac:(vm_compute; lia)).
    vm_compute. reflexivity.
Defined.



(** C10.  The summary of a run that read the results document holds, after
    the header and totals lines, the failed-case lines of the failed
    test-case tags of the document: a header that counts every tag and,
    for each tag, the value captured by the first occurrence of the
    pattern [name=], double quote, value, double quote in the raw text of
    the tag, whatever stands before [name=]: a tag whose [fullname]
    attribute comes first is listed under that value.  A tag without such
    an occurrence adds no dash line and is still counted. *)
Theorem C10_listed_name_is_first_name_pattern
        (w : World) (resultsPath logPath : jsstring) (child : Process)
        (xml : jsstring) :
  (readFile w resultsPath = Returned xml ->
   fst (summarize w resultsPath logPath child []) =
   Returned {| summary :=
                 summary_of_document w logPath child xml
                   (failed_cases_text (failed_tags xml))
                   (appended (failureDetailStage xml));
               exitCode := reported_code child |})
  /\ failed_case_tags xml = failed_tags xml
  /\ appended (failedCasesStage xml) =
     match failed_case_tags xml with
     | [] => []
     | tags => failed_cases_header (length tags) ++ concat (map dash_line tags)
     end
  /\ (forall tag,
        match js_match re_name tag with
        | Some n => Some (group 1 n)
        | None => None
        end = first_name_value tag)
  /\ (forall pre v post,
        count_sub (pre ++ name_eq_quote) name_eq_quote = 1 ->
        existsb (chr_eqb dq) v = false ->
        dash_line (pre ++ name_eq_quote ++ v ++ [dq] ++ post) =
        str "  - " ++ v ++ nl)
  /\ (forall tag, count_sub tag name_eq_quote = 0 -> dash_line tag = []).
Proof.
  split.
  { intros Hr.
    rewrite (summary_of_document_run w resultsPath logPath child xml Hr).
    now rewrite failed_cases_text_appended. }
  split; [apply failed_case_tags_failed_tags|].
  split; [apply failedCasesStage_appended|].
  split; [apply js_match_re_name|]. split.
  - intros pre v post Hc Hv. unfold dash_line.
    now rewrite first_name_value_first.
  - intros tag Hc. unfold dash_line. now rewrite first_name_value_none.
Qed.

(** C10 at a run on a document with a tag whose [fullname] attribute comes
    first and a tag without a name. *)
Lemma C10_listed_name_is_first_name_pattern_witness :
  let tag := quoted "<test-case id='3' fullname='N.C' name='C' result='Failed'>" in
  let nameless := quoted "<test-case id='4' result='Failed'>" in
  let child := sample_child [] [] (Some 0%Z) in
  fst (summarize (sample_world (Returned (tag ++ nameless)) (Thrown enoent) child)
                 (str "/p/results.xml") (str "/p/batch.log") child []) =
    Returned {| summary :=
                  str "Failed cases (2):" ++ nl ++ str "  - N.C" ++ nl ++ nl ++
                  str "Log: /p/batch.log" ++ nl ++ str "Exit code: 0";
                exitCode := 0 |}
  /\ dash_line tag = str "  - N.C" ++ nl
  /\ dash_line nameless = [].
Proof.
  intros tag nameless child.
  destruct (C10_listed_name_is_first_name_pattern
              (sample_world (Returned (tag ++ nameless)) (Thrown enoent) child)
              (str "/p/results.xml") (str "/p/batch.log") child (tag ++ nameless))
    as (Hsum & _ & _ & _ & Hfirst & Hnone).
  split; [|split].
  - rewrite (Hsum eq_refl). vm_compute. reflexivity.
  - apply (Hfirst (quoted "<test-case id='3' full") (str "N.C")
                  (quoted " name='C' result='Failed'>")); reflexivity.
  - apply Hnone. reflexivity.
Defined.

(** C3 (amended).  Let the tags be the texts the scan of the document
    finds from left to right, each starting with [<test-case], holding
    [result=Failed] with that exact spelling before the next [>] and
    ending at that [>], and let N be their number.  They are disjoint
    parts of the document, in its order.  The summary of a run that read
    the document holds, after the header and totals lines: nothing when N
    is 0, so no [Failed cases] header; otherwise the header with N and
    then, in document order, one dash line for each of the tags that holds
    a name pattern: at most N lines, and exactly N when every tag has one.
    Every tag has the shape of a test-case tag with a [result=Failed]
    attribute; the scan reads text, so a tag whose name only starts with
    [test-case], or whose attribute name only ends in [result], is one of
    them as well.  In a document made of self-contained test-case tags
    with [result=Failed], separated by texts whose own test-case tags are
    closed and not failed, the tags are exactly those tags. *)
Theorem C3_failed_cases_listed_in_order :
  (forall (w : World) (resultsPath logPath : jsstring) (child : Process)
          (xml : jsstring),
     readFile w resultsPath = Returned xml ->
     let tags := failed_tags xml in
     in_document_order tags xml
     /\ fst (summarize w resultsPath logPath child []) =
        Returned {| summary :=
                      summary_of_document w logPath child xml
                        match tags with
                        | [] => []
                        | _ :: _ =>
                            failed_cases_header (length tags) ++
                            concat (map (fun v => str "  - " ++ v ++ nl)
                                        (listed_names tags))
                        end
                        (appended (failureDetailStage xml));
                    exitCode := reported_code child |}
     /\ length (listed_names tags) <= length tags
     /\ (forallb has_name tags = true ->
         length (listed_names tags) = length tags))
  /\ (forall xml tag,
        In tag (failed_tags xml) ->
        exists a b,
          tag = failed_case_tag a b /\ tag_text a = true /\ tag_text b = true)
  /\ (forall g0 parts gaps,
        let tags := map (fun ab => failed_case_tag (fst ab) (snd ab)) parts in
        length gaps = length parts ->
        forallb (fun ab => tag_text (fst ab) && tag_text (snd ab)) parts = true ->
        forallb no_failed_case (g0 :: gaps) = true ->
        failed_tags (weave g0 tags gaps) = tags).
Proof.
  split; [|split].
  - intros w resultsPath logPath child xml Hr tags.
    split; [|split; [|split]].
    + unfold tags. rewrite <- failed_case_tags_failed_tags.
      apply js_match_g_in_order.
    + rewrite (summary_of_document_run w resultsPath logPath child xml Hr).
      rewrite failed_cases_text_appended. fold tags. unfold failed_cases_text.
      destruct tags as [|t l]; [reflexivity|].
      now rewrite dash_lines_of_names.
    + apply listed_names_le.
    + apply listed_names_all.
  - intros xml tag. apply failed_tags_shape.
  - intros g0 parts gaps tags Hlen Hparts Hgaps.
    unfold failed_tags, tags. rewrite <- scan_all_failed_tags.
    apply (scan_all_tags parts gaps g0 Hlen Hparts Hgaps).
Qed.

(** C3 at a run on a document with a passed case and two failed ones, and
    at a run on a document whose only case passed and carries
    [lastresult=Failed]: the scan counts it. *)
Lemma C3_failed_cases_listed_in_order_witness :
  let g0 := quoted "<test-suite><test-case id='1' name='A' result='Passed'/>" in
  let parts := [(quoted " id='2' name='B' ", quoted " duration='0.1'");
                (quoted " id='3' name='C' ", [])] in
  let gaps := [quoted "<failure><message><![CDATA[boom]]></message></failure></test-case>";
               quoted "</test-case></test-suite>"] in
  let tags := map (fun ab => failed_case_tag (fst ab) (snd ab)) parts in
  let xml := weave g0 tags gaps in
  let retried := quoted "<test-case name='A' lastresult='Failed' result='Passed'/>" in
  let child := sample_child [] [] (Some 0%Z) in
  failed_tags xml = tags
  /\ length (listed_names (failed_tags xml)) = 2
  /\ fst (summarize (sample_world (Returned xml) (Thrown enoent) child)
                    (str "/p/results.xml") (str "/p/batch.log") child []) =
     Returned {| summary :=
                   str "Failed cases (2):" ++ nl ++ str "  - B" ++ nl ++
                   str "  - C" ++ nl ++ nl ++
                   str "Failure message: boom" ++ nl ++ nl ++
                   str "Log: /p/batch.log" ++ nl ++ str "Exit code: 0";
                 exitCode := 0 |}
  /\ fst (summarize (sample_world (Returned retried) (Thrown enoent) child)
                    (str "/p/results.xml") (str "/p/batch.log") child []) =
     Returned {| summary :=
                   str "Failed cases (1):" ++ nl ++ str "  - A" ++ nl ++ nl ++
                   str "Log: /p/batch.log" ++ nl ++ str "Exit code: 0";
                 exitCode := 0 |}.
Proof.
  intros g0 parts gaps tags xml retried child.
  destruct C3_failed_cases_listed_in_order as (Hany & _ & Hbuilt).
  destruct (Hany (sample_world (Returned xml) (Thrown enoent) child)
                 (str "/p/results.xml") (str "/p/batch.log") child xml eq_refl)
    as (_ & Hsum & _ & Hall).
  destruct (Hany (sample_world (Returned retried) (Thrown enoent) child)
                 (str "/p/results.xml") (str "/p/batch.log") child retried eq_refl)
    as (_ & Hsum' & _ & _).
  split; [|split; [|split]].
  - apply Hbuilt; vm_compute; reflexivity.
  - apply Hall. vm_compute. reflexivity.
  - rewrite Hsum. vm_compute. reflexivity.
  - rewrite Hsum'. vm_compute. reflexivity.
Defined.
